(** * Univariate polynomials with real coefficients: model of [polynomial.py]

    The development embeds the [Polynomial] class of [src/polynomial.py] and
    the exception classes of [src/exceptions.py] and states the properties of
    the specification over that embedding.

    Modelling conventions.
    - A Python scalar ([Union[int, float]]) is a tagged number: [SInt z] is the
      int [z], [SFloat q] is a float whose value is the rational [q].  In this
      first reading the arithmetic of floats is exact; it carries the
      statements that rounding does not decide, and those on int coefficients,
      where the interpreter is exact as well.  The module [Binary64] reads the
      numbers as the interpreter computes them, a float being an IEEE 754
      binary64 value, and carries the claim that rounding decides.
    - A raised exception is the [Raise] case of [result]; the monadic bind
      propagates it, as the interpreter does.
    - The items of a tuple or of a list are a list of scalars; where the
      source adds a list to a tuple the two kinds are told apart ([PySeq]).
      Python strings are [string], a [dict] keyed by exponent is a
      [gmap Z Scalar]. *)

From Stdlib Require Import ZArith QArith Qcanon String Ascii List Lia Field DecimalString.
From Stdlib Require SpecFloat.
From stdpp Require Import base numbers list gmap strings.

Local Open Scope string_scope.
Local Open Scope Z_scope.

(** ** Exceptions ([src/exceptions.py] and the builtins that can be raised) *)

Inductive exn : Type :=
| ValueError
| IndexError
| KeyError
| TypeError
| ZeroDivisionError
| OverflowError
| PolynomialParseError (term : string)
| PolynomialTypeError (op : string) (typename : string)
| PolynomialDomainError (msg : string).

Inductive result (A : Type) : Type :=
| Ok (a : A)
| Raise (e : exn).
Arguments Ok {A} a.
Arguments Raise {A} e.

#[global] Instance result_ret : MRet result := fun A a => Ok a.
#[global] Instance result_bind : MBind result := fun A B f m =>
  match m with
  | Ok a => f a
  | Raise e => Raise e
  end.
#[global] Instance result_fmap : FMap result := fun A B f m =>
  match m with
  | Ok a => Ok (f a)
  | Raise e => Raise e
  end.

(** A bare [try: ... except: pass] turns every exception into "no value". *)
Definition try_except {A} (m : result A) : option A :=
  match m with
  | Ok a => Some a
  | Raise _ => None
  end.

Definition of_option {A} (o : option A) (e : exn) : result A :=
  match o with
  | Some a => Ok a
  | None => Raise e
  end.

(** [for x in xs: state = body x state], stopping at the first exception. *)
Fixpoint for_each {A S : Type} (xs : list A) (body : A -> S -> result S) (s : S)
  : result S :=
  match xs with
  | [] => Ok s
  | x :: xs' => s' ← body x s; for_each xs' body s'
  end.

(** [range(n)] for an integer [n]; empty when [n <= 0]. *)
Definition range (n : Z) : list nat := seq 0 (Z.to_nat n).

(** [len(l)] *)
Definition len {A} (l : list A) : Z := Z.of_nat (length l).

(** [l[i]] for a non-negative index. *)
Definition index {A} (l : list A) (i : nat) : result A :=
  of_option (l !! i) IndexError.

(** [l[i] = x] *)
Definition setitem {A} (l : list A) (i : nat) (x : A) : result (list A) :=
  if bool_decide (i < length l)%nat then Ok (<[i := x]> l) else Raise IndexError.

(** ** Scalars: Python's [int] and [float] *)

Inductive Scalar : Type :=
| SInt (z : Z)
| SFloat (q : Qc).

Definition Qc_of_Z (z : Z) : Qc := Q2Qc (inject_Z z).

Definition value (s : Scalar) : Qc :=
  match s with
  | SInt z => Qc_of_Z z
  | SFloat q => q
  end.

(** [a == b] on numbers compares values, whatever the two types. *)
Definition s_eq (a b : Scalar) : bool := bool_decide (value a = value b).

(** [a >= 0] *)
Definition s_nonneg (a : Scalar) : bool := bool_decide (0 <= value a)%Qc.

(** Truth value of a number: nonzero. *)
Definition truthy (a : Scalar) : bool := negb (s_eq a (SInt 0)).

Definition s_add (a b : Scalar) : Scalar :=
  match a, b with
  | SInt x, SInt y => SInt (x + y)
  | _, _ => SFloat (value a + value b)%Qc
  end.

Definition s_mul (a b : Scalar) : Scalar :=
  match a, b with
  | SInt x, SInt y => SInt (x * y)
  | _, _ => SFloat (value a * value b)%Qc
  end.

Definition s_neg (a : Scalar) : Scalar :=
  match a with
  | SInt x => SInt (- x)
  | SFloat q => SFloat (- q)%Qc
  end.

Definition s_abs (a : Scalar) : Scalar :=
  match a with
  | SInt x => SInt (Z.abs x)
  | SFloat q => SFloat (if bool_decide (0 <= q)%Qc then q else - q)%Qc
  end.

(** [a / b]: true division always yields a float, and raises
    [ZeroDivisionError] on a zero divisor, for ints and floats alike. *)
Definition s_div (a b : Scalar) : result Scalar :=
  if s_eq b (SInt 0) then Raise ZeroDivisionError
  else Ok (SFloat (value a / value b)%Qc).

(** [float(x)] of a number. *)
Definition to_float (a : Scalar) : Scalar := SFloat (value a).

(** [seq1 == seq2] on sequences: same length, elements pairwise [==]. *)
Fixpoint seq_eq (l1 l2 : list Scalar) : bool :=
  match l1, l2 with
  | [], [] => true
  | a :: l1', b :: l2' => s_eq a b && seq_eq l1' l2'
  | _, _ => false
  end.

(** ** Strings: the [str] methods the parser uses *)

Definition startswith (pre s : string) : bool := String.prefix pre s.

(** [sub in s] *)
Fixpoint contains (sub s : string) : bool :=
  match s with
  | EmptyString => String.prefix sub s
  | String _ s' => String.prefix sub s || contains sub s'
  end.

(** [s[1:]] and [s[:-1]] *)
Definition tail (s : string) : string :=
  match s with
  | EmptyString => EmptyString
  | String _ s' => s'
  end.

Fixpoint init (s : string) : string :=
  match s with
  | EmptyString => EmptyString
  | String c s' =>
      match s' with
      | EmptyString => EmptyString
      | String _ _ => String c (init s')
      end
  end.

(** [s[0]], raising [IndexError] on the empty string. *)
Definition first_char (s : string) : result ascii :=
  match s with
  | EmptyString => Raise IndexError
  | String c _ => Ok c
  end.

(** [s.replace(old, new)] for a non-empty [old]: occurrences are found from
    left to right and do not overlap.  [skip] counts the characters of a
    matched occurrence that are still to be passed over. *)
Fixpoint replace_from (old new : string) (skip : nat) (s : string) : string :=
  match s with
  | EmptyString => EmptyString
  | String c s' =>
      match skip with
      | S k => replace_from old new k s'
      | O =>
          if String.prefix old s
          then new ++ replace_from old new (String.length old - 1) s'
          else String c (replace_from old new 0 s')
      end
  end.

Definition replace (old new s : string) : string := replace_from old new 0 s.

(** [s.split(sep)] for a non-empty [sep]; the result always has a first
    piece. *)
Fixpoint split_from (sep : string) (skip : nat) (s : string) : string * list string :=
  match s with
  | EmptyString => (EmptyString, [])
  | String c s' =>
      match skip with
      | S k => split_from sep k s'
      | O =>
          if String.prefix sep s
          then let '(p, ps) := split_from sep (String.length sep - 1) s' in
               (EmptyString, p :: ps)
          else let '(p, ps) := split_from sep 0 s' in
               (String c p, ps)
      end
  end.

Definition split (sep s : string) : list string :=
  let '(p, ps) := split_from sep 0 s in p :: ps.

(** *** [int(s)] and [float(s)] on decimal literals

    [int_of_string] models [int(s)] on an optional sign followed by decimal
    digits.  [float_of_string] models [float(s)] on an optional sign, decimal
    digits with an optional fraction, and an optional decimal exponent.  The
    other spellings Python accepts (surrounding whitespace, underscores
    between digits, [inf], [nan]) are rejected by the model. *)

Definition digit_value (c : ascii) : option Z :=
  let n := nat_of_ascii c in
  if (48 <=? n)%nat && (n <=? 57)%nat then Some (Z.of_nat n - 48) else None.

Fixpoint digits_value (acc : Z) (s : string) : option Z :=
  match s with
  | EmptyString => Some acc
  | String c s' => d ← digit_value c; digits_value (10 * acc + d) s'
  end.

(** A non-empty run of decimal digits. *)
Definition natural_of_string (s : string) : option Z :=
  match s with
  | EmptyString => None
  | String _ _ => digits_value 0 s
  end.

Definition signed (parse : string -> option Z) (s : string) : option Z :=
  match s with
  | String "-" s' => Z.opp <$> parse s'
  | String "+" s' => parse s'
  | _ => parse s
  end.

Definition int_of_string (s : string) : option Z := signed natural_of_string s.

(** Index of the first character of [s] that satisfies [p]. *)
Fixpoint find_char (p : ascii -> bool) (s : string) : option nat :=
  match s with
  | EmptyString => None
  | String c s' => if p c then Some O else S <$> find_char p s'
  end.

Definition cut (p : ascii -> bool) (s : string) : string * option string :=
  match find_char p s with
  | Some i => (String.substring 0 i s,
               Some (String.substring (S i) (String.length s - S i) s))
  | None => (s, None)
  end.

Definition is_dot (c : ascii) : bool := bool_decide (c = "."%char).
Definition is_exp (c : ascii) : bool :=
  bool_decide (c = "e"%char) || bool_decide (c = "E"%char).

(** digits [. digits] with at least one digit overall *)
Definition mantissa_of_string (s : string) : option Qc :=
  let '(ip, fp) := cut is_dot s in
  let fp := default EmptyString fp in
  n ← natural_of_string (ip ++ fp);
  Some (Q2Qc (Qmake n (Z.to_pos (10 ^ Z.of_nat (String.length fp))))).

Definition pow10 (e : Z) : Qc :=
  if 0 <=? e then Qc_of_Z (10 ^ e) else Q2Qc (Qmake 1 (Z.to_pos (10 ^ (- e)))).

Definition unsigned_float_of_string (s : string) : option Qc :=
  let '(m, e) := cut is_exp s in
  m' ← mantissa_of_string m;
  match e with
  | None => Some m'
  | Some e => e' ← int_of_string e; Some (m' * pow10 e')%Qc
  end.

Definition float_of_string (s : string) : option Scalar :=
  match s with
  | String "-" s' => (fun q => SFloat (- q)%Qc) <$> unsigned_float_of_string s'
  | String "+" s' => SFloat <$> unsigned_float_of_string s'
  | _ => SFloat <$> unsigned_float_of_string s
  end.

(** [str(z)] of an int. *)
Definition str_int (z : Z) : string :=
  DecimalString.NilZero.string_of_int (Z.to_int z).

(** [str(i)] of a loop index. *)
Definition str_nat (n : nat) : string := str_int (Z.of_nat n).

(** ** The [Polynomial] class *)

Record Polynomial : Type := mkPolynomial {
  coefficients : list Scalar;
  var : string
}.

(** An operand of an operator: a number, a [Polynomial], or an object of
    another type, of which only the type name is observed.  The tests
    [_is_numeric(other)] and [isinstance(other, Polynomial)] of the methods
    are the cases [VNum] and [VPoly] of a match on the operand, and
    [isinstance(n, int)] is the case [VNum (SInt n)]. *)
Inductive PyValue : Type :=
| VNum (s : Scalar)
| VPoly (p : Polynomial)
| VOther (typename : string).

(** [type(obj).__name__] *)
Definition type_name (v : PyValue) : string :=
  match v with
  | VNum (SInt _) => "int"
  | VNum (SFloat _) => "float"
  | VPoly _ => "Polynomial"
  | VOther t => t
  end.

(** Modelled from the spec: [_is_numeric] is called by the operators but its
    body is not in the source file.  The spec lets every binary operator
    accept "a real scalar": an int or a float. *)
Definition _is_numeric (v : PyValue) : bool :=
  match v with
  | VNum _ => true
  | _ => false
  end.

(** Removal of all trailing (highest-index) zero coefficients. *)
Fixpoint drop_trailing_zeros (l : list Scalar) : list Scalar :=
  match l with
  | [] => []
  | c :: l' =>
      match drop_trailing_zeros l' with
      | [] => if s_eq c (SInt 0) then [] else [c]
      | r => c :: r
      end
  end.

(** Modelled from the spec: [_strip_leading_zeros] is called by [__init__]
    but its body is not in the source file.  The spec: construction "strips
    trailing zero coefficients above degree 0 before storing"; the
    coefficient of degree 0 is kept whatever its value.  "The sequence is
    never empty; the zero polynomial is represented as a single-element
    sequence [0]": a call without coefficients stores the zero polynomial. *)
Definition _strip_leading_zeros (args : list Scalar) : list Scalar :=
  match args with
  | [] => [SInt 0]
  | c :: l => c :: drop_trailing_zeros l
  end.

(** Modelled from the spec: [_clean] is called by [__init__] but its body is
    not in the source file.  The spec describes no transformation of the
    stored coefficients besides the stripping, so the sequence is kept as it
    is. *)
Definition _clean (cs : list Scalar) : list Scalar := cs.

(** Modelled from the spec: [_is_valid_coefficients] is called by [__init__]
    but its body is not in the source file.  The spec: construction
    "validates every coefficient is numeric". *)
Definition _is_valid_coefficients (cs : list Scalar) : bool :=
  forallb (fun c => _is_numeric (VNum c)) cs.

(** The constructor call [Polynomial(c0, c1, ..., var=var)]. *)
Definition __init__ (args : list Scalar) (var : string) : result Polynomial :=
  let self := mkPolynomial (_clean (_strip_leading_zeros args)) var in
  if negb (_is_valid_coefficients (coefficients self))
  then Raise ValueError
  else Ok self.

Definition __len__ (self : Polynomial) : Z := len (coefficients self).

Definition degree (self : Polynomial) : Z := __len__ self - 1.

Definition __eq__ (self : Polynomial) (other : PyValue) : result bool :=
  match other with
  | VNum s => c0 ← index (coefficients self) 0; Ok (s_eq c0 s)
  | VPoly other => Ok (seq_eq (coefficients self) (coefficients other))
  | VOther _ => Ok false
  end.

(** Modelled from the spec: the kind of sequence that [__init__] stores is
    decided by [_clean] and [_strip_leading_zeros], whose bodies are not in
    the source file.  The spec calls the coefficients "an ordered, immutable
    sequence" and writes the sequence of [Polynomial(1, 0, 0)] as [(1,)];
    the source declares the property [coefficients] as [tuple[Scalar, ...]]
    and documents it "Returns the tuple of coefficients" (lines 23-28), and
    [*args] is a tuple.  So the stored sequence is a tuple, of which the
    field [coefficients] of the record holds the items; what a comprehension
    or [[0] * n] builds is a list. *)
Inductive PySeq : Type :=
| PyTuple (items : list Scalar)
| PyList (items : list Scalar).

Definition items (s : PySeq) : list Scalar :=
  match s with
  | PyTuple l | PyList l => l
  end.

(** [a + b] on sequences: two tuples or two lists are concatenated; a tuple
    and a list raise [TypeError]. *)
Definition seq_add (a b : PySeq) : result PySeq :=
  match a, b with
  | PyTuple x, PyTuple y => Ok (PyTuple (x ++ y)%list)
  | PyList x, PyList y => Ok (PyList (x ++ y)%list)
  | _, _ => Raise TypeError
  end.

(** [sorted([self, other], key=len)]: the sort is stable. *)
Definition sorted_by_len (self other : Polynomial) : Polynomial * Polynomial :=
  if __len__ other <? __len__ self then (other, self) else (self, other).

Definition __add__ (self : Polynomial) (other : PyValue) : result Polynomial :=
  match other with
  | VNum s =>
      c0 ← index (coefficients self) 0;
      __init__ (s_add c0 s :: drop 1 (coefficients self)) "x"
  | VPoly other =>
      let '(shorter, longer) := sorted_by_len self other in
      let diff := Z.abs (__len__ self - __len__ other) in
      shorter_coefficients ←
        seq_add (PyTuple (coefficients shorter))
                (PyList (replicate (Z.to_nat diff) (SInt 0)));
      __init__ (zip_with s_add (items shorter_coefficients) (coefficients longer))
               (var self)
  | VOther _ => Raise (PolynomialTypeError "add" (type_name other))
  end.

Definition __radd__ (self : Polynomial) (other : PyValue) : result Polynomial :=
  __add__ self other.

Definition __neg__ (self : Polynomial) : result Polynomial :=
  __init__ (map s_neg (coefficients self)) (var self).

(** [-other] for an operand of any type. *)
Definition negated (other : PyValue) : result PyValue :=
  match other with
  | VNum s => Ok (VNum (s_neg s))
  | VPoly p => VPoly <$> __neg__ p
  | VOther _ => Raise TypeError
  end.

Definition __sub__ (self : Polynomial) (other : PyValue) : result Polynomial :=
  o ← negated other; __add__ self o.

Definition __mul__ (self : Polynomial) (other : PyValue) : result Polynomial :=
  match other with
  | VNum s => __init__ (map (fun co => s_mul co s) (coefficients self)) (var self)
  | VPoly other =>
      let new_coefficients :=
        replicate (Z.to_nat (__len__ self + __len__ other - 1)) (SInt 0) in
      new_coefficients ←
        for_each (range (len (coefficients self))) (fun i new_coefficients =>
          for_each (range (len (coefficients other))) (fun j new_coefficients =>
            old ← index new_coefficients (i + j);
            a ← index (coefficients self) i;
            b ← index (coefficients other) j;
            setitem new_coefficients (i + j) (s_add old (s_mul a b)))
          new_coefficients)
        new_coefficients;
      __init__ new_coefficients (var self)
  | VOther _ => Raise (PolynomialTypeError "multiply" (type_name other))
  end.

Definition __rmul__ (self : Polynomial) (other : PyValue) : result Polynomial :=
  __mul__ self other.

Definition __truediv__ (self : Polynomial) (other : PyValue) : result Polynomial :=
  match other with
  | VNum s =>
      cs ← mapM (fun co => s_div co s) (coefficients self);
      __init__ cs (var self)
  | _ => Raise (PolynomialTypeError "divide" (type_name other))
  end.

Definition __pow__ (self : Polynomial) (n : PyValue) : result Polynomial :=
  match n with
  | VNum (SInt n) =>
      if n <? 0
      then Raise (PolynomialDomainError "Cannot raise polynomial to negative power")
      else
        result ← __init__ [SInt 1] (var self);
        for_each (range n) (fun _ result => __mul__ result (VPoly self)) result
  | _ => Raise (PolynomialDomainError "Cannot raise polynomial to negative power")
  end.

Definition copy (self : Polynomial) : result Polynomial :=
  __init__ (coefficients self) (var self).

Definition derivative (self : Polynomial) : result Polynomial :=
  if len (coefficients self) =? 1
  then __init__ [SInt 0] "x"
  else
    let differentiated :=
      drop 1 (imap (fun i co => s_mul (SInt (Z.of_nat i)) co) (coefficients self)) in
    __init__ differentiated (var self).

Definition integral (self : Polynomial) (constant : Scalar) : result Polynomial :=
  integrated ←
    mapM (fun i => c ← index (coefficients self) i;
                   s_div c (SInt (Z.of_nat i + 1)))
         (range (len (coefficients self)));
  __init__ (constant :: integrated) (var self).

Definition compose (self : Polynomial) (other : PyValue) : result Polynomial :=
  match other with
  | VPoly other =>
      result ← __init__ [SInt 0] (var self);
      for_each (range (len (coefficients self))) (fun i result =>
        c ← index (coefficients self) i;
        p ← __pow__ other (VNum (SInt (Z.of_nat i)));
        t ← __rmul__ p (VNum c);
        __add__ result (VPoly t))
      result
  | _ => Raise (PolynomialTypeError "compose" (type_name other))
  end.

Definition from_roots (args : list Scalar) (var : string) : result Polynomial :=
  result ← __init__ [SInt 1] var;
  for_each args (fun root result =>
    factor ← __init__ [s_neg root; SInt 1] var;
    __mul__ result (VPoly factor))
  result.

(** ** Parsing: [from_string] and [_is_valid_term] *)

(** Body of the inner [try] of [_is_valid_term], for a term without caret. *)
Definition linear_term (term : string) : result (Scalar * Z) :=
  let sign := SInt 1 in
  c ← first_char term;
  if bool_decide (c = "-"%char)
  then
    let sign := SInt (-1) in
    let term := tail term in
    if Z.of_nat (String.length term) =? 1
    then Ok (SInt (-1), 1)
    else
      coefficient ← of_option (float_of_string (init term)) ValueError;
      Ok (s_mul sign coefficient, 1)
  else
    coefficient ← of_option (float_of_string (init term)) ValueError;
    Ok (s_mul sign coefficient, 1).

(** [float(check[0])], where [check[0]] is the text before [var^], or the
    int 1 or -1 that replaced an empty or sign-only text. *)
Definition leading_coefficient (check0 : string) : option Scalar :=
  if bool_decide (check0 = "") then Some (to_float (SInt 1))
  else if bool_decide (check0 = "-") then Some (to_float (SInt (-1)))
  else float_of_string check0.

(** The result is [None] where the source returns [False].  [split] always
    returns a first piece, so the first branch of the match is never taken. *)
Definition _is_valid_term (term var : string) : option (Scalar * Z) :=
  match float_of_string term with
  | Some single => Some (single, 0)
  | None =>
      match split (var ++ "^") term with
      | [] => None
      | check0 :: check_rest =>
          if negb (len (check0 :: check_rest) =? 2)
          then
            if negb (contains "^" term)
            then try_except (linear_term term)
            else None
          else
            coefficient ← leading_coefficient check0;
            exponent ← check_rest !! 0%nat ≫= int_of_string;
            Some (coefficient, exponent)
      end
  end.

(** The sign folding at the start of [from_string]. *)
Definition fold_signs (str : string) : string :=
  let str := if startswith "-" str then "0" ++ str else str in
  replace "_" "+-" (replace "-" "+-" (replace "+-" "_" (replace " " "" str))).

(** Truth value of [d.get(k)]: false for a missing key and for a stored zero. *)
Definition get_truthy (d : gmap Z Scalar) (k : Z) : bool :=
  match d !! k with
  | Some c => truthy c
  | None => false
  end.

(** [d[k]] *)
Definition getitem (d : gmap Z Scalar) (k : Z) : result Scalar :=
  of_option (d !! k) KeyError.

(** One turn of the loop over the terms. *)
Definition add_term (var term : string) (coefficients : gmap Z Scalar)
  : result (gmap Z Scalar) :=
  match _is_valid_term term var with
  | Some (coefficient, exponent) =>
      if get_truthy coefficients exponent
      then
        old ← getitem coefficients exponent;
        Ok (<[exponent := s_add old coefficient]> coefficients)
      else Ok (<[exponent := coefficient]> coefficients)
  | None => Raise (PolynomialParseError term)
  end.

(** [max(d)]: the largest key; [ValueError] on an empty dict. *)
Definition max_key (d : gmap Z Scalar) : result Z :=
  match (map_to_list d).*1 with
  | [] => Raise ValueError
  | k :: ks => Ok (foldr Z.max k ks)
  end.

(** The list [final_coefficients] that [from_string] passes to the
    constructor. *)
Definition final_coefficients (str var : string) : result (list Scalar) :=
  let terms := split "+" (fold_signs str) in
  coefficients ← for_each terms (add_term var) ∅;
  degree ← max_key coefficients;
  let final_coefficients := replicate (Z.to_nat (degree + 1)) (SInt 0) in
  for_each (range (degree + 1)) (fun i final_coefficients =>
    if get_truthy coefficients (Z.of_nat i)
    then
      c ← getitem coefficients (Z.of_nat i);
      setitem final_coefficients i c
    else Ok final_coefficients)
  final_coefficients.

Definition from_string (str var : string) : result Polynomial :=
  final_coefficients ← final_coefficients str var;
  __init__ final_coefficients var.

(** ** Rendering: [__str__]

    [float_repr] stands for Python's [repr] of a float, which the exact
    model of floats cannot compute. *)

Section Rendering.

Variable float_repr : Qc -> string.

(** [str(c)] of a number. *)
Definition str_scalar (c : Scalar) : string :=
  match c with
  | SInt z => str_int z
  | SFloat q => float_repr q
  end.

(** One turn of the loop of [__str__]; the state is
    [(result, nonzero_found)]. *)
Definition str_step (self : Polynomial) (i : nat) (st : string * bool)
  : result (string * bool) :=
  let '(result, nonzero_found) := st in
  c ← index (coefficients self) i;
  if s_eq c (SInt 0) then Ok (result, nonzero_found)
  else
    let plus :=
      if negb nonzero_found then (if s_nonneg c then "" else "-")
      else if s_nonneg c then " + "
      else " - " in
    let coefficient :=
      if negb (s_eq (s_abs c) (SInt 1)) || (i =? 0)%nat
      then str_scalar (s_abs c) else "" in
    let nonzero_found := true in
    if (i =? 0)%nat then Ok (result ++ plus ++ coefficient, nonzero_found)
    else if (i =? 1)%nat
         then Ok (result ++ plus ++ coefficient ++ var self, nonzero_found)
         else Ok (result ++ plus ++ coefficient ++ var self ++ "^" ++ str_nat i,
                  nonzero_found).

Definition __str__ (self : Polynomial) : result string :=
  st ← for_each (range (len (coefficients self))) (str_step self) ("", false);
  Ok (if bool_decide (st.1 = "") then "0" else st.1).

End Rendering.

(** ** The statements of the specification

    The definitions of this part follow the wording of the specification;
    the theorems compare them with the class above. *)

(** Canonical form: the sequence is not empty, and its last coefficient is
    nonzero unless it is the only one. *)
Definition canonical (cs : list Scalar) : bool :=
  match last cs with
  | None => false
  | Some c => negb (s_eq c (SInt 0)) || (length cs =? 1)%nat
  end.

(** A polynomial of the data model. *)
Definition well_formed (P : Polynomial) : Prop := canonical (coefficients P) = true.

(** [r1 == r2] holds for the results of two calls. *)
Definition equal_results (r1 r2 : result Polynomial) : Prop :=
  exists p1 p2, r1 = Ok p1 /\ r2 = Ok p2 /\ __eq__ p1 (VPoly p2) = Ok true.

(** "A constant (degree 0) polynomial whose sole coefficient equals that
    scalar". *)
Definition constant_equal_to (P : Polynomial) (s : Scalar) : bool :=
  match coefficients P with
  | [c] => s_eq c s
  | _ => false
  end.

(** "Pad the shorter coefficient sequence with trailing zeros to match the
    longer one's length, then add element-wise". *)
Definition pad (n : nat) (cs : list Scalar) : list Scalar :=
  (cs ++ replicate (n - length cs) (SInt 0))%list.

Definition padded_sum (ps qs : list Scalar) : list Scalar :=
  let n := Nat.max (length ps) (length qs) in
  zip_with s_add (pad n ps) (pad n qs).

(** "Repeated multiplication starting from the constant polynomial 1". *)
Fixpoint repeated_product (P : Polynomial) (n : nat) : result Polynomial :=
  match n with
  | O => __init__ [SInt 1] (var P)
  | S k => r ← repeated_product P k; __mul__ r (VPoly P)
  end.

(** The three shapes of a term: a constant, [<coeff>var] and
    [<coeff>var^<exp>], the coefficient being possibly missing or reduced to
    a sign. *)
Definition coefficient_text (c : string) : Prop :=
  c = "" \/ c = "-" \/ is_Some (float_of_string c).

Definition term_shape (term var : string) : Prop :=
  is_Some (float_of_string term)
  \/ (exists c, term = c ++ var /\ coefficient_text c)
  \/ (exists c e, term = c ++ var ++ "^" ++ e /\ coefficient_text c
                  /\ is_Some (int_of_string e)).

(** Concatenation of a list of texts. *)
Definition join (l : list string) : string := foldr String.append "" l.

Section RenderingSpec.

Variable float_repr : Qc -> string.

(** The terms with a nonzero coefficient, by ascending degree. *)
Definition nonzero_terms (cs : list Scalar) : list (nat * Scalar) :=
  List.filter (fun t => negb (s_eq t.2 (SInt 0))) (imap pair cs).

(** The magnitude is left out when it is 1 and the degree is at least 1. *)
Definition magnitude_text (t : nat * Scalar) : string :=
  if (1 <=? t.1)%nat && s_eq (s_abs t.2) (SInt 1) then ""
  else str_scalar float_repr (s_abs t.2).

Definition power_text (v : string) (i : nat) : string :=
  match i with
  | O => ""
  | S O => v
  | _ => v ++ "^" ++ str_nat i
  end.

Definition term_text (v : string) (t : nat * Scalar) : string :=
  magnitude_text t ++ power_text v t.1.

(** The first term carries a bare minus when negative; every later term is
    introduced by a separator that absorbs its sign. *)
Definition first_term_text (v : string) (t : nat * Scalar) : string :=
  (if s_nonneg t.2 then "" else "-") ++ term_text v t.

Definition later_term_text (v : string) (t : nat * Scalar) : string :=
  (if s_nonneg t.2 then " + " else " - ") ++ term_text v t.

Definition terms_text (v : string) (ts : list (nat * Scalar)) : string :=
  match ts with
  | [] => ""
  | t :: ts' => first_term_text v t ++ join (map (later_term_text v) ts')
  end.

(** The rendering the specification describes: the nonzero terms, and "0"
    for the all-zero polynomial. *)
Definition rendering (P : Polynomial) : string :=
  match nonzero_terms (coefficients P) with
  | [] => "0"
  | ts => terms_text (var P) ts
  end.

(** The same texts, for the terms that remain to be written when
    [found] tells whether a term has been written already, and for
    coefficients numbered from [off]; these two serve the proof of the
    loop. *)
Fixpoint render_terms (found : bool) (v : string) (ts : list (nat * Scalar)) : string :=
  match ts with
  | [] => ""
  | t :: ts' =>
      (if found then later_term_text v t else first_term_text v t)
      ++ render_terms true v ts'
  end.

Definition nonzero_terms_from (off : nat) (cs : list Scalar) : list (nat * Scalar) :=
  List.filter (fun t => negb (s_eq t.2 (SInt 0)))
              (imap (fun i c => ((off + i)%nat, c)) cs).

End RenderingSpec.

(** Every [-] of the text stands right after a [+]; [prev] tells whether
    the character before the text is a [+]. *)
Fixpoint dash_guarded (prev : bool) (s : string) : bool :=
  match s with
  | EmptyString => true
  | String c s' =>
      (negb (bool_decide (c = "-"%char)) || prev)
      && dash_guarded (bool_decide (c = "+"%char)) s'
  end.

Fixpoint no_dash (s : string) : bool :=
  match s with
  | EmptyString => true
  | String c s' => negb (bool_decide (c = "-"%char)) && no_dash s'
  end.

(** ** Evaluation: [evaluate] *)

(** [n ** i] for a loop index [i]: an int for an int base, a float for a
    float base; [n ** 0] is 1. *)
Definition s_pow (n : Scalar) (i : nat) : Scalar :=
  match n with
  | SInt z => SInt (z ^ Z.of_nat i)
  | SFloat q => SFloat (q ^ i)%Qc
  end.

(** [sum(...)] starts from the int 0 and adds the terms from left to
    right. *)
Definition evaluate (self : Polynomial) (n : Scalar) : result Scalar :=
  terms ← mapM (fun i => c ← index (coefficients self) i; Ok (s_mul c (s_pow n i)))
               (range (__len__ self));
  Ok (foldl s_add (SInt 0) terms).

(** ** Notions used to state the further properties *)

(** Every coefficient is an int.  On such polynomials the arithmetic of
    the methods is the arithmetic of integers of any size, in the
    interpreter as in the model. *)
Definition is_int (c : Scalar) : bool :=
  match c with
  | SInt _ => true
  | SFloat _ => false
  end.

Definition int_coefficients (P : Polynomial) : Prop :=
  forallb is_int (coefficients P) = true.

(** The coefficient of degree [i] as a number, 0 past the end. *)
Definition coef (cs : list Scalar) (i : nat) : Qc :=
  match cs !! i with
  | Some c => value c
  | None => 0%Qc
  end.

(** The value of the polynomial at [x], in Horner form. *)
Fixpoint peval (cs : list Scalar) (x : Qc) : Qc :=
  match cs with
  | [] => 0%Qc
  | c :: cs' => (value c + x * peval cs' x)%Qc
  end.

(** [f 0 + ... + f (n - 1)] *)
Fixpoint sum_to (n : nat) (f : nat -> Qc) : Qc :=
  match n with
  | O => 0%Qc
  | S n' => (sum_to n' f + f n')%Qc
  end.

(** The coefficient of degree [k] of the product. *)
Definition conv (ps qs : list Scalar) (k : nat) : Qc :=
  sum_to (S k) (fun i => coef ps i * coef qs (k - i))%Qc.

(** The call returned a polynomial of the data model whose coefficient of
    degree [i] is [f i], for every [i]. *)
Definition denotes (r : result Polynomial) (f : nat -> Qc) : Prop :=
  exists R, r = Ok R /\ well_formed R /\ forall i, coef (coefficients R) i = f i.

(** [evaluate] returns a number of value [q]. *)
Definition evaluates_to (P : Polynomial) (n : Scalar) (q : Qc) : Prop :=
  exists e, evaluate P n = Ok e /\ value e = q.

(** * The numbers as the interpreter computes them

    The module reads the same methods with Python's numbers as they are:
    an int is an integer of any size and a float is an IEEE 754 binary64
    number, every operation on floats being rounded to the nearest, ties to
    even.  It serves the claims that rounding decides. *)

Module Binary64.

Import SpecFloat.

Definition prec : Z := 53.
Definition emax : Z := 1024.

Inductive Scalar : Type :=
| SInt (z : Z)
| SFloat (f : spec_float).

(** [float(z)]: the nearest double; [OverflowError] past the largest one. *)
Definition float_of_int (z : Z) : result spec_float :=
  match binary_normalize prec emax z 0 false with
  | S754_infinity _ => Raise OverflowError
  | f => Ok f
  end.

(** The float operand of a mixed operation: an int is converted first. *)
Definition as_float (a : Scalar) : result spec_float :=
  match a with
  | SInt z => float_of_int z
  | SFloat f => Ok f
  end.

(** An int and a float are compared by their exact values; infinities and
    NaN equal no int. *)
Definition int_eq_float (z : Z) (f : spec_float) : bool :=
  match f with
  | S754_zero _ => z =? 0
  | S754_finite s m e =>
      if 0 <=? e then z =? cond_Zopp s (Zpos m * 2 ^ e)
      else z * 2 ^ (- e) =? cond_Zopp s (Zpos m)
  | _ => false
  end.

(** [a == b] *)
Definition s_eq (a b : Scalar) : bool :=
  match a, b with
  | SInt x, SInt y => x =? y
  | SFloat f, SFloat g => SFeqb f g
  | SInt x, SFloat f => int_eq_float x f
  | SFloat f, SInt x => int_eq_float x f
  end.

(** [a * b]: exact on two ints, rounded once otherwise. *)
Definition s_mul (a b : Scalar) : result Scalar :=
  match a, b with
  | SInt x, SInt y => Ok (SInt (x * y))
  | _, _ => x ← as_float a; y ← as_float b; Ok (SFloat (SFmul prec emax x y))
  end.

(** An int as a float of unbounded precision, for the division of ints. *)
Definition exact_int (z : Z) : spec_float :=
  match z with
  | 0 => S754_zero false
  | Zpos m => S754_finite false m 0
  | Zneg m => S754_finite true m 0
  end.

(** [a / b]: [ZeroDivisionError] on a zero divisor.  The quotient of two
    ints is their exact quotient rounded once, [OverflowError] when it is
    out of range; otherwise the operands are converted and divided. *)
Definition s_div (a b : Scalar) : result Scalar :=
  if s_eq b (SInt 0) then Raise ZeroDivisionError
  else
    match a, b with
    | SInt x, SInt y =>
        match SFdiv prec emax (exact_int x) (exact_int y) with
        | S754_infinity _ => Raise OverflowError
        | q => Ok (SFloat q)
        end
    | _, _ => x ← as_float a; y ← as_float b; Ok (SFloat (SFdiv prec emax x y))
    end.

(** [seq1 == seq2] on sequences: same length, elements pairwise [==]. *)
Fixpoint seq_eq (l1 l2 : list Scalar) : bool :=
  match l1, l2 with
  | [], [] => true
  | a :: l1', b :: l2' => s_eq a b && seq_eq l1' l2'
  | _, _ => false
  end.

Record Polynomial : Type := mkPolynomial {
  coefficients : list Scalar;
  var : string
}.

Inductive PyValue : Type :=
| VNum (s : Scalar)
| VPoly (p : Polynomial)
| VOther (typename : string).

Fixpoint drop_trailing_zeros (l : list Scalar) : list Scalar :=
  match l with
  | [] => []
  | c :: l' =>
      match drop_trailing_zeros l' with
      | [] => if s_eq c (SInt 0) then [] else [c]
      | r => c :: r
      end
  end.

(** Modelled from the spec: [_strip_leading_zeros], [_clean] and
    [_is_valid_coefficients] are called by [__init__] but their bodies are
    not in the source file.  As in the first part: the trailing zero
    coefficients above degree 0 are stripped, a call without coefficients
    stores the zero polynomial, nothing else is done to the sequence, and
    every number is a valid coefficient. *)
Definition _strip_leading_zeros (args : list Scalar) : list Scalar :=
  match args with
  | [] => [SInt 0]
  | c :: l => c :: drop_trailing_zeros l
  end.

Definition _clean (cs : list Scalar) : list Scalar := cs.

Definition _is_valid_coefficients (cs : list Scalar) : bool := true.

Definition __init__ (args : list Scalar) (var : string) : result Polynomial :=
  let self := mkPolynomial (_clean (_strip_leading_zeros args)) var in
  if negb (_is_valid_coefficients (coefficients self))
  then Raise ValueError
  else Ok self.

Definition __eq__ (self : Polynomial) (other : PyValue) : result bool :=
  match other with
  | VNum s => c0 ← index (coefficients self) 0; Ok (s_eq c0 s)
  | VPoly other => Ok (seq_eq (coefficients self) (coefficients other))
  | VOther _ => Ok false
  end.

(** [enumerate] pairs each coefficient with its index; the products are
    computed for every index, the first one is dropped afterwards. *)
Definition derivative (self : Polynomial) : result Polynomial :=
  if len (coefficients self) =? 1
  then __init__ [SInt 0] "x"
  else
    products ← mapM (fun '(i, co) => s_mul (SInt (Z.of_nat i)) co)
                    (imap pair (coefficients self));
    __init__ (drop 1 products) (var self).

Definition integral (self : Polynomial) (constant : Scalar) : result Polynomial :=
  integrated ←
    mapM (fun i => c ← index (coefficients self) i;
                   s_div c (SInt (Z.of_nat i + 1)))
         (range (len (coefficients self)));
  __init__ (constant :: integrated) (var self).

(** Canonical form and the data model, as in the first part. *)
Definition canonical (cs : list Scalar) : bool :=
  match last cs with
  | None => false
  | Some c => negb (s_eq c (SInt 0)) || (length cs =? 1)%nat
  end.

Definition well_formed (P : Polynomial) : Prop := canonical (coefficients P) = true.

(** The derivative of the integral rebuilds the coefficient [c] of degree
    [i] as [(i + 1) * (c / (i + 1))]; the round trip is exact when this
    number is computed without exception and is [==] to [c]. *)
Definition exact_round_trip (i : nat) (c : Scalar) : bool :=
  match
    q ← s_div c (SInt (Z.of_nat i + 1));
    p ← s_mul (SInt (Z.of_nat i + 1)) q;
    Ok (s_eq p c)
  with
  | Ok b => b
  | Raise _ => false
  end.

End Binary64.

(** * Properties *)

(** ** Scalars *)

Lemma Qc_of_Z_add (x y : Z) : Qc_of_Z (x + y) = (Qc_of_Z x + Qc_of_Z y)%Qc.
Proof.
  unfold Qc_of_Z. apply Qc_is_canon. simpl.
  rewrite !Qred_correct. rewrite inject_Z_plus. reflexivity.
Qed.

Lemma Qc_of_Z_mul (x y : Z) : Qc_of_Z (x * y) = (Qc_of_Z x * Qc_of_Z y)%Qc.
Proof.
  unfold Qc_of_Z. apply Qc_is_canon. simpl.
  rewrite !Qred_correct. rewrite inject_Z_mult. reflexivity.
Qed.

Lemma Qc_of_Z_inj (x y : Z) : Qc_of_Z x = Qc_of_Z y -> x = y.
Proof.
  unfold Qc_of_Z. intros H. apply (f_equal this) in H. simpl in H.
  assert (Hq : (inject_Z x == inject_Z y)%Q).
  { rewrite <- (Qred_correct (inject_Z x)), <- (Qred_correct (inject_Z y)).
    rewrite H. reflexivity. }
  unfold Qeq in Hq. simpl in Hq. lia.
Qed.

Lemma Qc_of_Z_0 : Qc_of_Z 0 = 0%Qc.
Proof. apply Qc_is_canon. reflexivity. Qed.

Lemma Qc_of_Z_1 : Qc_of_Z 1 = 1%Qc.
Proof. apply Qc_is_canon. reflexivity. Qed.

Lemma s_eq_true (a b : Scalar) : s_eq a b = true <-> value a = value b.
Proof. unfold s_eq. apply bool_decide_eq_true. Qed.

Lemma s_eq_false (a b : Scalar) : s_eq a b = false <-> value a <> value b.
Proof. unfold s_eq. apply bool_decide_eq_false. Qed.

Lemma s_eq_refl (a : Scalar) : s_eq a a = true.
Proof. apply s_eq_true. reflexivity. Qed.

Lemma value_s_add (a b : Scalar) : value (s_add a b) = (value a + value b)%Qc.
Proof. destruct a, b; simpl; auto using Qc_of_Z_add. Qed.

Lemma value_s_mul (a b : Scalar) : value (s_mul a b) = (value a * value b)%Qc.
Proof. destruct a, b; simpl; auto using Qc_of_Z_mul. Qed.

Lemma s_eq_zero (c : Scalar) : s_eq c (SInt 0) = true <-> value c = 0%Qc.
Proof. rewrite s_eq_true. simpl. rewrite Qc_of_Z_0. reflexivity. Qed.

(** ** Sequences of coefficients *)

Lemma seq_eq_values (l1 l2 : list Scalar) :
  seq_eq l1 l2 = true <-> map value l1 = map value l2.
Proof.
  revert l2. induction l1 as [|a l1 IH]; intros [|b l2]; simpl; try easy.
  rewrite andb_true_iff, s_eq_true, IH. split.
  - intros [-> ->]. reflexivity.
  - intros H. injection H. auto.
Qed.


(** ** The constructor *)

Lemma valid_coefficients (cs : list Scalar) : _is_valid_coefficients cs = true.
Proof. unfold _is_valid_coefficients. induction cs; simpl; auto. Qed.

Lemma init_ok (args : list Scalar) (v : string) :
  __init__ args v = Ok (mkPolynomial (_strip_leading_zeros args) v).
Proof. unfold __init__. rewrite valid_coefficients. reflexivity. Qed.

Lemma drop_trailing_zeros_values (l1 l2 : list Scalar) :
  map value l1 = map value l2 ->
  map value (drop_trailing_zeros l1) = map value (drop_trailing_zeros l2).
Proof.
  revert l2. induction l1 as [|a l1 IH]; intros [|b l2] H; simpl in *; try easy.
  injection H as Hab Hl. specialize (IH _ Hl).
  assert (Hz : s_eq a (SInt 0) = s_eq b (SInt 0)).
  { unfold s_eq. rewrite Hab. reflexivity. }
  destruct (drop_trailing_zeros l1), (drop_trailing_zeros l2); simpl in *;
    try discriminate.
  - rewrite Hz. destruct (s_eq b (SInt 0)); simpl; congruence.
  - congruence.
Qed.

Lemma strip_values (l1 l2 : list Scalar) :
  map value l1 = map value l2 ->
  map value (_strip_leading_zeros l1) = map value (_strip_leading_zeros l2).
Proof.
  destruct l1, l2; simpl; try easy. intros H. injection H as Hab Hl.
  f_equal; auto using drop_trailing_zeros_values.
Qed.

Lemma drop_trailing_zeros_last (l : list Scalar) (c : Scalar) :
  last (drop_trailing_zeros l) = Some c -> s_eq c (SInt 0) = false.
Proof.
  induction l as [|a l IH]; simpl; [easy|].
  destruct (drop_trailing_zeros l) as [|b r] eqn:E.
  - destruct (s_eq a (SInt 0)) eqn:Ea; simpl; [easy|]. congruence.
  - intros H. apply IH. exact H.
Qed.

Lemma drop_trailing_zeros_id (l : list Scalar) (c : Scalar) :
  last l = Some c -> s_eq c (SInt 0) = false -> drop_trailing_zeros l = l.
Proof.
  induction l as [|a l IH]; simpl; [easy|]. intros Hl Hc.
  destruct l as [|b l].
  - simpl in *. injection Hl as ->. rewrite Hc. reflexivity.
  - rewrite IH by assumption. reflexivity.
Qed.

(** Construction from at least one coefficient yields the canonical form. *)
Lemma strip_canonical (args : list Scalar) :
  args <> [] -> canonical (_strip_leading_zeros args) = true.
Proof.
  destruct args as [|c l]; [easy|]. intros _. unfold canonical. simpl.
  destruct (drop_trailing_zeros l) as [|b r] eqn:E; simpl.
  - apply orb_true_r.
  - destruct (last (b :: r)) as [d|] eqn:Hd.
    + rewrite <- E in Hd. rewrite (drop_trailing_zeros_last _ _ Hd). reflexivity.
    + apply last_None in Hd. discriminate.
Qed.

(** The canonical form is left as it is by the constructor. *)
Lemma strip_id (cs : list Scalar) :
  canonical cs = true -> _strip_leading_zeros cs = cs.
Proof.
  unfold canonical. destruct cs as [|c l]; [easy|].
  destruct l as [|b l]; [reflexivity|].
  change (last (c :: b :: l)) with (last (b :: l)).
  destruct (last (b :: l)) as [d|] eqn:Hd; [|discriminate].
  cbn [length Nat.eqb]. rewrite orb_false_r, negb_true_iff. intros Hz.
  unfold _strip_leading_zeros.
  rewrite (drop_trailing_zeros_id _ _ Hd Hz). reflexivity.
Qed.

Lemma canonical_nonempty (cs : list Scalar) : canonical cs = true -> cs <> [].
Proof. destruct cs; [discriminate | easy]. Qed.


(** ** Equality with a scalar *)

Lemma eq_scalar_first (P : Polynomial) (c : Scalar) (l : list Scalar) (s : Scalar) :
  coefficients P = c :: l -> __eq__ P (VNum s) = Ok (s_eq c s).
Proof. intros H. unfold __eq__. rewrite H. reflexivity. Qed.

Lemma eq_scalar_constant (P : Polynomial) (c s : Scalar) :
  coefficients P = [c] -> __eq__ P (VNum s) = Ok (constant_equal_to P s).
Proof. intros H. unfold __eq__, constant_equal_to. rewrite H. reflexivity. Qed.

(** C1 (equality with a scalar).  [Polynomial(5) == 5] is true as the
    specification says, but [Polynomial(5, 1) == 5] is true as well:
    [__eq__] compares the coefficient of degree 0 with the scalar and never
    looks at the degree, although the polynomial is not the constant 5. *)
Theorem eq_scalar_ignores_degree :
  (exists q, __init__ [SInt 5] "x" = Ok q
             /\ __eq__ q (VNum (SInt 5)) = Ok true
             /\ constant_equal_to q (SInt 5) = true)
  /\ (exists p, __init__ [SInt 5; SInt 1] "x" = Ok p
                /\ __eq__ p (VNum (SInt 5)) = Ok true
                /\ constant_equal_to p (SInt 5) = false).
Proof.
  split; eexists; (split; [apply init_ok|]); split; vm_compute; reflexivity.
Qed.

(** ** Division by a scalar *)




(** ** Addition *)

(** Line 115 adds the list [[0] * diff] to the tuple of the shorter
    operand: the concatenation raises before any coefficient is added. *)
Lemma add_polynomial (P Q : Polynomial) : __add__ P (VPoly Q) = Raise TypeError.
Proof. unfold __add__. destruct (sorted_by_len P Q). reflexivity. Qed.

Lemma value_add_zero (c : Scalar) : value (s_add c (SInt 0)) = value c.
Proof.
  rewrite value_s_add. simpl. rewrite Qc_of_Z_0. apply Qcplus_0_r.
Qed.

Lemma add_zero (P : Polynomial) :
  well_formed P -> equal_results (__add__ P (VNum (SInt 0))) (Ok P).
Proof.
  intros Hwf. unfold well_formed in Hwf. unfold __add__.
  destruct (coefficients P) as [|c l] eqn:E; [discriminate|].
  simpl. rewrite init_ok. eexists _, P. split; [reflexivity|].
  split; [reflexivity|]. unfold __eq__. cbn [coefficients]. f_equal. rewrite E.
  apply seq_eq_values.
  transitivity (map value (_strip_leading_zeros (c :: l))).
  - apply strip_values. cbn [map]. rewrite value_add_zero. reflexivity.
  - rewrite (strip_id (c :: l) Hwf). reflexivity.
Qed.

(** C4 (addition).  The sum of two polynomials never returns: whatever
    [P] and [Q], [P + Q] raises [TypeError] on line 115, where a list of
    zeros is added to the tuple of coefficients.  So [P + Q] is not the
    polynomial of the padded element-wise sum, and [P + Q == Q + P] has no
    value. *)
Theorem add_polynomial_raises (P Q : Polynomial) :
  __add__ P (VPoly Q) = Raise TypeError
  /\ __add__ P (VPoly Q)
     <> __init__ (padded_sum (coefficients P) (coefficients Q)) (var P)
  /\ ~ equal_results (__add__ P (VPoly Q)) (__add__ Q (VPoly P)).
Proof.
  rewrite !add_polynomial. split; [reflexivity|]. split.
  - rewrite init_ok. discriminate.
  - intros (p1 & p2 & H & _). discriminate.
Qed.

(** ** Parsing *)

Lemma append_cons (c : ascii) (s t : string) : String c s ++ t = String c (s ++ t).
Proof. reflexivity. Qed.

Lemma append_nil (t : string) : "" ++ t = t.
Proof. reflexivity. Qed.

Lemma split_cons (sep s : string) : exists p ps, split sep s = p :: ps.
Proof. unfold split. destruct (split_from sep 0 s); eauto. Qed.

Lemma bind_Ok {A B : Type} (a : A) (f : A -> result B) : (Ok a ≫= f) = f a.
Proof. reflexivity. Qed.

Lemma bind_Raise {A B : Type} (e : exn) (f : A -> result B) : (Raise e ≫= f) = Raise e.
Proof. reflexivity. Qed.

(** Case analysis on the first call of a sequence that is known to
    return: the call returned, with the equation [E]. *)
Ltac first_call E :=
  match goal with
  | |- (?m ≫= _) = Ok _ -> _ =>
      destruct m eqn:E; [rewrite bind_Ok | discriminate]
  end.

Lemma for_each_cons {A S : Type} (x : A) (xs : list A) (body : A -> S -> result S) (s : S) :
  for_each (x :: xs) body s = (body x s ≫= for_each xs body).
Proof. reflexivity. Qed.

Lemma for_each_app {A S : Type} (xs ys : list A) (body : A -> S -> result S) (s : S) :
  for_each (xs ++ ys) body s = (s' ← for_each xs body s; for_each ys body s').
Proof.
  revert s. induction xs as [|x xs IH]; intros s; simpl; [reflexivity|].
  destruct (body x s); simpl; auto.
Qed.

Lemma add_term_valid (var term : string) (d : gmap Z Scalar) :
  is_Some (_is_valid_term term var) -> exists d', add_term var term d = Ok d'.
Proof.
  intros [[c e] H]. unfold add_term. rewrite H.
  unfold get_truthy, getitem. destruct (d !! e); simpl; [|eauto].
  destruct (truthy s); simpl; eauto.
Qed.

Lemma add_term_invalid (var term : string) (d : gmap Z Scalar) :
  _is_valid_term term var = None ->
  add_term var term d = Raise (PolynomialParseError term).
Proof. intros H. unfold add_term. rewrite H. reflexivity. Qed.

Lemma add_terms_valid (var : string) (terms : list string) :
  Forall (fun t => is_Some (_is_valid_term t var)) terms ->
  forall d, exists d', for_each terms (add_term var) d = Ok d'.
Proof.
  induction 1 as [|t terms Ht _ IH]; intros d; simpl; [eauto|].
  destruct (add_term_valid var t d Ht) as [d' ->]. simpl. apply IH.
Qed.

(** The first term that [_is_valid_term] rejects ends the parse with a
    [PolynomialParseError] that carries this term. *)
Lemma from_string_invalid_term (str var : string) (pre post : list string) (term : string) :
  split "+" (fold_signs str) = (pre ++ term :: post)%list ->
  Forall (fun t => is_Some (_is_valid_term t var)) pre ->
  _is_valid_term term var = None ->
  from_string str var = Raise (PolynomialParseError term).
Proof.
  intros Hsplit Hpre Hterm. unfold from_string, final_coefficients.
  rewrite Hsplit, for_each_app.
  destruct (add_terms_valid var pre Hpre ∅) as [d' ->].
  rewrite bind_Ok, for_each_cons, (add_term_invalid _ _ _ Hterm).
  reflexivity.
Qed.

Lemma from_string_malformed_power :
  from_string "x^^2" "x" = Raise (PolynomialParseError "x^^2").
Proof.
  apply (from_string_invalid_term "x^^2" "x" [] []);
    [reflexivity | constructor | vm_compute; reflexivity].
Qed.

(** *** Terms without caret *)

Lemma prefix_caret_contains (v s : string) :
  String.prefix (v ++ "^") s = true -> contains "^" s = true.
Proof.
  revert s. induction v as [|a v IH]; intros s.
  - rewrite append_nil. destruct s; cbn [contains]; [easy|]. intros ->. reflexivity.
  - rewrite append_cons. destruct s as [|b s]; cbn [String.prefix contains]; [easy|].
    destruct (Ascii.ascii_dec a b); [|discriminate].
    intros H. rewrite (IH _ H). apply orb_true_r.
Qed.

Lemma split_without_caret (v s : string) :
  contains "^" s = false -> split (v ++ "^") s = [s].
Proof.
  unfold split. induction s as [|c s IH]; [reflexivity|].
  intros H. cbn [split_from].
  destruct (String.prefix (v ++ "^") (String c s)) eqn:E.
  - apply prefix_caret_contains in E. congruence.
  - cbn [contains] in H. apply orb_false_iff in H as [_ H].
    specialize (IH H). destruct (split_from (v ++ "^") 0 s) as [p ps].
    injection IH as -> ->. reflexivity.
Qed.

Lemma init_snoc (c : string) (x : ascii) : init (c ++ String x "") = c.
Proof.
  induction c as [|a c IH]; [reflexivity|].
  rewrite append_cons. cbn [init]. rewrite IH.
  destruct c; reflexivity.
Qed.

(** A term without caret whose text before the last character parses as a
    number is accepted with exponent 1, whatever the last character is. *)
Lemma linear_term_accepted (a : ascii) (c : string) (x : ascii) (var : string) (q : Scalar) :
  a <> "-"%char ->
  float_of_string (String a c ++ String x "") = None ->
  contains "^" (String a c ++ String x "") = false ->
  float_of_string (String a c) = Some q ->
  _is_valid_term (String a c ++ String x "") var = Some (s_mul (SInt 1) q, 1).
Proof.
  intros Ha Hterm Hcaret Hc. unfold _is_valid_term.
  rewrite Hterm, (split_without_caret _ _ Hcaret), Hcaret.
  cbn [len length Z.of_nat Z.eqb negb Pos.of_succ_nat Pos.eqb].
  unfold linear_term. rewrite append_cons. cbn [first_char]. rewrite bind_Ok.
  rewrite bool_decide_eq_false_2 by assumption.
  rewrite <- append_cons, init_snoc, Hc. reflexivity.
Qed.

(** C3 (terms without caret).  The bare term ["x"] has the shape
    [<coeff>var] with a missing coefficient, yet [_is_valid_term] rejects it
    and [from_string("x")] raises [PolynomialParseError("x")]: the branch
    without caret calls [float] on the empty text before the variable,
    while the sign-only term ["-x"] and the term ["x^2"] get their default
    coefficient. *)
Theorem from_string_bare_variable :
  term_shape "x" "x"
  /\ _is_valid_term "x" "x" = None
  /\ from_string "x" "x" = Raise (PolynomialParseError "x")
  /\ _is_valid_term "-x" "x" = Some (SInt (-1), 1)
  /\ _is_valid_term "3x" "x" = Some (SFloat (Qc_of_Z 3), 1)
  /\ _is_valid_term "x^2" "x" = Some (SFloat (Qc_of_Z 1), 2).
Proof.
  split.
  { right. left. exists "". split; [reflexivity | left; reflexivity]. }
  repeat split; vm_compute; reflexivity.
Qed.

Lemma not_shape_3y : ~ term_shape "3y" "x".
Proof.
  intros [H | [(c & H & _) | (c & e & H & _)]].
  - vm_compute in H. destruct H as [? H]. discriminate.
  - destruct c as [|a [|b [|d c]]]; cbv [String.append] in H; congruence.
  - destruct c as [|a [|b [|d c]]]; cbv [String.append] in H; congruence.
Qed.

(** C7 (invalid terms).  The term ["3y"] has none of the three shapes for
    the variable ["x"], yet [from_string("3y")] returns the polynomial [3x]
    instead of raising a [PolynomialParseError]: the branch without caret
    drops the last character without comparing it with the variable. *)
Theorem from_string_foreign_variable :
  ~ term_shape "3y" "x"
  /\ _is_valid_term "3y" "x" = Some (SFloat (Qc_of_Z 3), 1)
  /\ from_string "3y" "x" = Ok (mkPolynomial [SInt 0; SFloat (Qc_of_Z 3)] "x").
Proof.
  split; [apply not_shape_3y|]. split; vm_compute; reflexivity.
Qed.

(** *** Where a minus sign can stand in a term *)

Lemma prefix_char (c d : ascii) (s : string) :
  String.prefix (String c "") (String d s) = bool_decide (c = d).
Proof.
  cbn [String.prefix]. destruct (Ascii.ascii_dec c d) as [->|H].
  - rewrite bool_decide_eq_true_2 by reflexivity. destruct s; reflexivity.
  - rewrite bool_decide_eq_false_2 by assumption. reflexivity.
Qed.

Lemma replace_dash_guarded (s : string) (prev : bool) :
  dash_guarded prev (replace "-" "+-" s) = true.
Proof.
  unfold replace. revert prev. induction s as [|c s IH]; intros prev; [reflexivity|].
  cbn [replace_from String.length Nat.sub]. rewrite prefix_char.
  destruct (decide ("-"%char = c)) as [<-|Hc].
  - rewrite bool_decide_eq_true_2 by reflexivity.
    rewrite !append_cons, append_nil. cbn [dash_guarded].
    rewrite IH. reflexivity.
  - rewrite bool_decide_eq_false_2 by assumption.
    cbn [dash_guarded]. rewrite IH, andb_true_r.
    rewrite bool_decide_eq_false_2 by congruence. reflexivity.
Qed.

Lemma replace_underscore_guarded (s : string) (prev : bool) :
  dash_guarded prev s = true ->
  dash_guarded prev (replace "_" "+-" s) = true.
Proof.
  unfold replace. revert prev. induction s as [|c s IH]; intros prev; [reflexivity|].
  cbn [replace_from String.length Nat.sub dash_guarded]. rewrite prefix_char.
  rewrite andb_true_iff.
  destruct (decide ("_"%char = c)) as [<-|Hne].
  - rewrite (bool_decide_eq_true_2 ("_"%char = "_"%char)) by reflexivity.
    intros [_ Hs].
    rewrite !append_cons, append_nil. cbn [dash_guarded].
    change (bool_decide ("_"%char = "+"%char)) with false in Hs.
    change (bool_decide ("-"%char = "+"%char)) with false.
    rewrite (IH _ Hs). reflexivity.
  - rewrite (bool_decide_eq_false_2 ("_"%char = c)) by assumption.
    intros [Hc Hs].
    cbn [dash_guarded]. rewrite Hc, (IH _ Hs). reflexivity.
Qed.

Lemma fold_signs_guarded (str : string) : dash_guarded false (fold_signs str) = true.
Proof.
  unfold fold_signs. apply replace_underscore_guarded, replace_dash_guarded.
Qed.

Lemma split_plus_dash (s : string) (prev : bool) (p : string) (ps : list string) :
  split_from "+" 0 s = (p, ps) ->
  dash_guarded prev s = true ->
  (if prev then no_dash (tail p) else no_dash p) = true
  /\ Forall (fun t => no_dash (tail t) = true) ps.
Proof.
  revert prev p ps. induction s as [|c s IH]; intros prev p ps.
  - intros [= <- <-] _. destruct prev; auto.
  - cbn [split_from String.length Nat.sub dash_guarded]. rewrite prefix_char.
    rewrite andb_true_iff.
    destruct (split_from "+" 0 s) as [p' ps'] eqn:E.
    destruct (decide ("+"%char = c)) as [<-|Hne].
    + rewrite !(bool_decide_eq_true_2 ("+"%char = "+"%char)) by reflexivity.
      intros [= <- <-] [_ Hs].
      destruct (IH true p' ps' eq_refl Hs) as [Hp' Hps'].
      split; [destruct prev; reflexivity|]. constructor; assumption.
    + rewrite (bool_decide_eq_false_2 ("+"%char = c)) by assumption.
      rewrite (bool_decide_eq_false_2 (c = "+"%char)) by congruence.
      intros [= <- <-] [Hc Hs].
      destruct (IH false p' ps' eq_refl Hs) as [Hp' Hps'].
      split; [|assumption]. destruct prev; cbn [tail no_dash]; [assumption|].
      rewrite orb_false_r in Hc. rewrite Hc, Hp'. reflexivity.
Qed.

(** After the sign folding, a term has no minus sign past its first
    character. *)
Lemma terms_dash (str : string) :
  Forall (fun t => no_dash (tail t) = true) (split "+" (fold_signs str)).
Proof.
  unfold split. destruct (split_from "+" 0 (fold_signs str)) as [p ps] eqn:E.
  destruct (split_plus_dash _ false p ps E (fold_signs_guarded str)) as [Hp Hps].
  constructor; [|assumption]. destruct p; [reflexivity|].
  cbn [no_dash] in Hp. apply andb_true_iff in Hp. apply Hp.
Qed.

Lemma split_no_dash (sep s : string) (skip : nat) (p : string) (ps : list string) :
  no_dash s = true ->
  split_from sep skip s = (p, ps) ->
  no_dash p = true /\ Forall (fun t => no_dash t = true) ps.
Proof.
  revert skip p ps. induction s as [|c s IH]; intros skip p ps.
  - intros _ [= <- <-]. auto.
  - cbn [no_dash split_from]. rewrite andb_true_iff. intros [Hc Hs].
    destruct skip as [|k]; [|apply IH, Hs].
    destruct (String.prefix sep (String c s)).
    + destruct (split_from sep (String.length sep - 1) s) as [p' ps'] eqn:E.
      intros [= <- <-]. destruct (IH _ _ _ Hs E). split; [reflexivity|].
      constructor; assumption.
    + destruct (split_from sep 0 s) as [p' ps'] eqn:E.
      intros [= <- <-]. destruct (IH _ _ _ Hs E) as [Hp' Hps'].
      split; [|assumption]. cbn [no_dash]. rewrite Hc, Hp'. reflexivity.
Qed.

Lemma split_tail_no_dash (sep s : string) (p : string) (ps : list string) :
  no_dash (tail s) = true ->
  split_from sep 0 s = (p, ps) ->
  Forall (fun t => no_dash t = true) ps.
Proof.
  destruct s as [|c s]; [intros _ [= <- <-]; constructor|].
  cbn [tail split_from]. intros Hs.
  destruct (String.prefix sep (String c s)).
  - destruct (split_from sep (String.length sep - 1) s) as [p' ps'] eqn:E.
    intros [= <- <-]. destruct (split_no_dash _ _ _ _ _ Hs E).
    constructor; assumption.
  - destruct (split_from sep 0 s) as [p' ps'] eqn:E.
    intros [= <- <-]. apply (split_no_dash _ _ _ _ _ Hs E).
Qed.

Lemma digit_value_nonneg (c : ascii) (d : Z) : digit_value c = Some d -> 0 <= d.
Proof.
  unfold digit_value.
  destruct (Nat.leb_spec 48 (nat_of_ascii c)); simpl; [|discriminate].
  destruct (nat_of_ascii c <=? 57)%nat; [|discriminate].
  intros [= <-]. lia.
Qed.

Lemma digits_value_nonneg (s : string) (acc v : Z) :
  0 <= acc -> digits_value acc s = Some v -> 0 <= v.
Proof.
  revert acc. induction s as [|c s IH]; intros acc Hacc; simpl.
  - intros [= <-]. exact Hacc.
  - destruct (digit_value c) as [d|] eqn:Hd; [|discriminate]. simpl.
    apply IH. pose proof (digit_value_nonneg _ _ Hd). lia.
Qed.

Lemma natural_of_string_nonneg (s : string) (v : Z) :
  natural_of_string s = Some v -> 0 <= v.
Proof.
  destruct s; [discriminate|]. unfold natural_of_string.
  apply digits_value_nonneg. lia.
Qed.

Lemma int_of_string_nonneg (s : string) (e : Z) :
  no_dash s = true -> int_of_string s = Some e -> 0 <= e.
Proof.
  unfold int_of_string, signed. destruct s as [|c s]; [discriminate|].
  cbn [no_dash]. rewrite andb_true_iff, negb_true_iff, bool_decide_eq_false.
  intros [Hc _].
  destruct c as [[] [] [] [] [] [] [] []];
    try apply natural_of_string_nonneg; congruence.
Qed.

Lemma linear_term_exponent (term : string) (c : Scalar) (e : Z) :
  try_except (linear_term term) = Some (c, e) -> e = 1.
Proof.
  unfold linear_term. destruct (first_char term) as [ch|]; [|discriminate].
  rewrite bind_Ok.
  destruct (bool_decide (ch = "-"%char)).
  - destruct (Z.of_nat (String.length (tail term)) =? 1); [intros [= _ <-]; reflexivity|].
    destruct (float_of_string (init (tail term))); [|discriminate].
    intros [= _ <-]. reflexivity.
  - destruct (float_of_string (init term)); [|discriminate].
    intros [= _ <-]. reflexivity.
Qed.

(** A term without minus sign past its first character has a non-negative
    exponent. *)
Lemma valid_term_exponent_nonneg (term var : string) (c : Scalar) (e : Z) :
  no_dash (tail term) = true ->
  _is_valid_term term var = Some (c, e) -> 0 <= e.
Proof.
  intros Hdash. unfold _is_valid_term.
  destruct (float_of_string term); [intros [= _ <-]; lia|].
  unfold split.
  destruct (split_from (var ++ "^") 0 term) as [check0 check_rest] eqn:E.
  pose proof (split_tail_no_dash _ _ _ _ Hdash E) as Hrest.
  destruct (negb (len (check0 :: check_rest) =? 2)).
  - destruct (negb (contains "^" term)); [|discriminate].
    intros H. apply linear_term_exponent in H. lia.
  - destruct (leading_coefficient check0); [|discriminate].
    destruct check_rest as [|check1 rest]; [discriminate|].
    cbn. destruct (int_of_string check1) as [e'|] eqn:He; [|discriminate].
    intros [= _ <-]. apply Forall_cons in Hrest as [H1 _].
    exact (int_of_string_nonneg _ _ H1 He).
Qed.

Lemma add_term_keys (var term : string) (d d' : gmap Z Scalar) :
  no_dash (tail term) = true ->
  add_term var term d = Ok d' ->
  (forall k, is_Some (d !! k) -> 0 <= k) ->
  (forall k, is_Some (d' !! k) -> 0 <= k) /\ (exists k, is_Some (d' !! k)).
Proof.
  intros Hdash. unfold add_term.
  destruct (_is_valid_term term var) as [[c e]|] eqn:Hv; [|discriminate].
  pose proof (valid_term_exponent_nonneg _ _ _ _ Hdash Hv) as He.
  assert (Hins : forall x, (forall k, is_Some (d !! k) -> 0 <= k) ->
            (forall k, is_Some (<[e := x]> d !! k) -> 0 <= k)
            /\ (exists k, is_Some (<[e := x]> d !! k))).
  { intros x Hd. split.
    - intros k. destruct (decide (e = k)) as [<-|Hne]; [intros _; exact He|].
      rewrite lookup_insert_ne by assumption. apply Hd.
    - exists e. rewrite lookup_insert_eq. eauto. }
  destruct (get_truthy d e).
  - unfold getitem. destruct (d !! e); [|discriminate].
    intros [= <-]. apply Hins.
  - intros [= <-]. apply Hins.
Qed.

Lemma add_terms_keys (var : string) (terms : list string) (d d' : gmap Z Scalar) :
  Forall (fun t => no_dash (tail t) = true) terms ->
  for_each terms (add_term var) d = Ok d' ->
  (forall k, is_Some (d !! k) -> 0 <= k) ->
  (forall k, is_Some (d' !! k) -> 0 <= k)
  /\ (terms <> [] -> exists k, is_Some (d' !! k)).
Proof.
  intros Hterms. revert d. induction Hterms as [|t terms Ht _ IH]; intros d.
  - intros [= <-] Hd. split; [exact Hd | easy].
  - rewrite for_each_cons. first_call E. intros Hrest Hd.
    destruct (add_term_keys _ _ _ _ Ht E Hd) as [Hd1 Hne1].
    destruct (IH _ Hrest Hd1) as [Hd' Hne']. split; [exact Hd'|]. intros _.
    destruct terms as [|t' terms']; [|apply Hne'; discriminate].
    injection Hrest as <-. exact Hne1.
Qed.

Lemma foldr_max_ge (k : Z) (ks : list Z) : k <= foldr Z.max k ks.
Proof. induction ks as [|a ks IH]; simpl; lia. Qed.

Lemma max_key_nonneg (d : gmap Z Scalar) (degree : Z) :
  (forall k, is_Some (d !! k) -> 0 <= k) ->
  max_key d = Ok degree -> 0 <= degree.
Proof.
  intros Hd. unfold max_key.
  destruct (map_to_list d) as [|[k v] l] eqn:E; [discriminate|].
  cbn. intros [= <-].
  assert (Hk : d !! k = Some v).
  { apply elem_of_map_to_list. rewrite E. left. }
  pose proof (Hd k (ex_intro _ v Hk)). pose proof (foldr_max_ge k l.*1). lia.
Qed.

Lemma max_key_ok (d : gmap Z Scalar) :
  (exists k, is_Some (d !! k)) -> exists degree, max_key d = Ok degree.
Proof.
  intros [k [v Hk]]. unfold max_key.
  destruct (map_to_list d) as [|[k' v'] l] eqn:E; [|cbn; eauto].
  apply map_to_list_empty_iff in E. subst d. rewrite lookup_empty in Hk. discriminate.
Qed.

(** A loop keeps what every turn keeps. *)
Lemma for_each_invariant {A S : Type} (Inv : S -> Prop) (xs : list A)
    (body : A -> S -> result S) (s s' : S) :
  (forall x t t', body x t = Ok t' -> Inv t -> Inv t') ->
  Inv s -> for_each xs body s = Ok s' -> Inv s'.
Proof.
  intros Hbody. revert s. induction xs as [|x xs IH]; intros s Hs.
  - intros [= <-]. exact Hs.
  - rewrite for_each_cons. first_call E. apply IH. exact (Hbody _ _ _ E Hs).
Qed.

Lemma setitem_length {A} (l l' : list A) (i : nat) (x : A) :
  setitem l i x = Ok l' -> length l' = length l.
Proof.
  unfold setitem. case_bool_decide; [|discriminate].
  intros [= <-]. apply length_insert.
Qed.

(** The list that [from_string] passes to the constructor has
    [degree + 1 >= 1] elements. *)
Lemma final_coefficients_nonempty (str var : string) (fc : list Scalar) :
  final_coefficients str var = Ok fc -> fc <> [].
Proof.
  unfold final_coefficients.
  destruct (for_each (split "+" (fold_signs str)) (add_term var) ∅) as [d|] eqn:E;
    [|discriminate].
  rewrite bind_Ok.
  destruct (add_terms_keys _ _ _ _ (terms_dash str) E) as [Hd Hne].
  { intros k. rewrite lookup_empty. intros [? ?]. discriminate. }
  destruct (max_key d) as [degree|] eqn:Hmax; [|discriminate].
  rewrite bind_Ok. pose proof (max_key_nonneg _ _ Hd Hmax) as Hdeg.
  intros Hloop.
  assert (Hlen : length fc = Z.to_nat (degree + 1)).
  { refine (for_each_invariant
              (fun l => length l = Z.to_nat (degree + 1)) _ _ _ _ _ _ Hloop).
    - intros i t t'. destruct (get_truthy d (Z.of_nat i)); [|intros [= <-]; auto].
      destruct (getitem d (Z.of_nat i)); [|discriminate]. rewrite bind_Ok.
      intros H <-. exact (setitem_length _ _ _ _ H).
    - apply length_replicate. }
  intros ->. simpl in Hlen. lia.
Qed.

Lemma from_string_negative_exponent :
  split "+" (fold_signs "x^-1") = ["x^"; "-1"]
  /\ from_string "x^-1" "x" = Raise (PolynomialParseError "x^").
Proof. split; vm_compute; reflexivity. Qed.

(** C10 (negative exponents), amended.  Called on its own,
    [_is_valid_term] accepts ["x^-1"] and returns the coefficient 1.0 and
    the exponent -1.  Inside [from_string] no such term arises: the sign
    folding splits the text at every minus sign, so ["x^-1"] is parsed as
    the two terms ["x^"] and ["-1"] and fails with
    [PolynomialParseError("x^")]; every exponent that [from_string] obtains
    is non-negative, and the list passed to the constructor is never
    empty. *)
Theorem from_string_exponents (str var term : string) (c : Scalar) (e : Z) :
  In term (split "+" (fold_signs str)) ->
  _is_valid_term term var = Some (c, e) ->
  0 <= e
  /\ (forall fc, final_coefficients str var = Ok fc -> fc <> [])
  /\ _is_valid_term "x^-1" "x" = Some (SFloat (Qc_of_Z 1), -1)
  /\ from_string "x^-1" "x" = Raise (PolynomialParseError "x^").
Proof.
  intros Hin Hv. split.
  { pose proof (terms_dash str) as H. rewrite Forall_forall in H.
    apply (valid_term_exponent_nonneg term var c e); [|exact Hv].
    apply H. apply list_elem_of_In. exact Hin. }
  split; [intros fc; apply final_coefficients_nonempty|].
  split; vm_compute; reflexivity.
Qed.

Lemma from_string_exponents_witness :
  In "-x^3" (split "+" (fold_signs "-x^3+2x-1"))
  /\ _is_valid_term "-x^3" "x" = Some (SFloat (Qc_of_Z (-1)), 3)
  /\ 0 <= 3.
Proof.
  assert (H1 : In "-x^3" (split "+" (fold_signs "-x^3+2x-1")))
    by (vm_compute; auto).
  assert (H2 : _is_valid_term "-x^3" "x" = Some (SFloat (Qc_of_Z (-1)), 3))
    by (vm_compute; reflexivity).
  split; [exact H1|]. split; [exact H2|].
  exact (proj1 (from_string_exponents "-x^3+2x-1" "x" "-x^3" _ 3 H1 H2)).
Defined.

Lemma from_string_example :
  equal_results (from_string "x^2 - 3x + 2" "x")
                (__init__ [SInt 2; SInt (-3); SInt 1] "x").
Proof.
  eexists _, _. split; [vm_compute; reflexivity|].
  split; [vm_compute; reflexivity|]. vm_compute. reflexivity.
Qed.

(** ** Derivative and integral *)

Lemma index_middle {A} (pre post : list A) (x : A) :
  index (pre ++ x :: post)%list (length pre) = Ok x.
Proof. unfold index. rewrite list_lookup_middle by reflexivity. reflexivity. Qed.

Lemma mapM_index {B : Type} (f : nat -> Scalar -> result B) (g : nat -> Scalar -> B) :
  (forall i c, f i c = Ok (g i c)) ->
  forall cs pre,
    mapM (fun i => c ← index (pre ++ cs)%list i; f i c) (seq (length pre) (length cs))
    = Ok (imap (fun i => g (length pre + i)%nat) cs).
Proof.
  intros Hfg. induction cs as [|c cs IH]; intros pre; [reflexivity|].
  cbn [length seq mapM]. rewrite index_middle, bind_Ok, Hfg, bind_Ok.
  specialize (IH (pre ++ [c])%list). rewrite <- app_assoc, length_app in IH.
  cbn [app length] in IH. rewrite Nat.add_1_r in IH. rewrite IH, bind_Ok.
  cbn [imap]. rewrite Nat.add_0_r. unfold mret, result_ret. do 2 f_equal.
  apply imap_ext. intros i x _. cbn. f_equal. lia.
Qed.

Lemma s_div_nat (c : Scalar) (i : nat) :
  s_div c (SInt (Z.of_nat i + 1))
  = Ok (SFloat (value c / Qc_of_Z (Z.of_nat i + 1))%Qc).
Proof.
  unfold s_div. replace (s_eq (SInt (Z.of_nat i + 1)) (SInt 0)) with false; [reflexivity|].
  symmetry. apply s_eq_false. simpl. intros H. apply Qc_of_Z_inj in H. lia.
Qed.

(** The terms [c_i / (i + 1)] of the integral. *)
Lemma integral_ok (P : Polynomial) (constant : Scalar) :
  integral P constant
  = __init__ (constant :: imap (fun i c => SFloat (value c / Qc_of_Z (Z.of_nat i + 1))%Qc)
                               (coefficients P))
             (var P).
Proof.
  unfold integral, range, len. rewrite Nat2Z.id.
  pose proof (mapM_index (fun i c => s_div c (SInt (Z.of_nat i + 1))) _
                (fun i c => s_div_nat c i) (coefficients P) []) as H.
  cbn [app length] in H. rewrite H, bind_Ok. reflexivity.
Qed.

(** ** The derivative of the integral, with the floats of the interpreter *)

Module Rounding.

Import SpecFloat Binary64.

Lemma init_stores (args : list Scalar) (v : string) :
  __init__ args v = Ok (mkPolynomial (_strip_leading_zeros args) v).
Proof. reflexivity. Qed.

Lemma int_eq_float_0 (f : spec_float) :
  int_eq_float 0 f = match f with S754_zero _ => true | _ => false end.
Proof.
  destruct f as [s|s| |s m e]; try reflexivity. cbn [int_eq_float].
  destruct (Z.leb_spec 0 e) as [He|He]; apply Z.eqb_neq.
  - assert (0 < Z.pos m * 2 ^ e)
      by (apply Z.mul_pos_pos; [lia | apply Z.pow_pos_nonneg; lia]).
    destruct s; cbn [cond_Zopp]; lia.
  - destruct s; cbn [cond_Zopp]; lia.
Qed.

(** A float that equals an int is zero exactly when the int is. *)
Lemma int_eq_float_zero (x : Z) (f : spec_float) :
  int_eq_float x f = true -> (x =? 0) = int_eq_float 0 f.
Proof.
  rewrite int_eq_float_0. destruct f as [s|s| |s m e]; cbn [int_eq_float];
    try discriminate; [auto|].
  intros H. apply Z.eqb_neq. intros ->.
  destruct (Z.leb_spec 0 e) as [He|He]; apply Z.eqb_eq in H.
  - assert (0 < Z.pos m * 2 ^ e)
      by (apply Z.mul_pos_pos; [lia | apply Z.pow_pos_nonneg; lia]).
    destruct s; cbn [cond_Zopp] in H; lia.
  - destruct s; cbn [cond_Zopp] in H; lia.
Qed.

(** Two numbers that are [==] are both zero or both nonzero. *)
Lemma s_eq_zero_compat (p c : Scalar) :
  s_eq p c = true -> s_eq p (SInt 0) = s_eq c (SInt 0).
Proof.
  destruct p as [x|f], c as [y|g]; cbn [s_eq].
  - intros H%Z.eqb_eq. subst. reflexivity.
  - apply int_eq_float_zero.
  - intros H. symmetry. exact (int_eq_float_zero _ _ H).
  - rewrite !int_eq_float_0.
    destruct f as [[]|[]| |[] ? ?], g as [[]|[]| |[] ? ?];
      try reflexivity; discriminate.
Qed.

Lemma s_eq_zero_sym (c : Scalar) : s_eq (SInt 0) c = s_eq c (SInt 0).
Proof. destruct c; [apply Z.eqb_sym | reflexivity]. Qed.

(** A product by zero is zero or NaN: if it is [==] to [c], then [c] is
    zero. *)
Lemma s_mul_by_zero (n : Z) (q p c : Scalar) :
  s_eq q (SInt 0) = true -> s_mul (SInt n) q = Ok p -> s_eq p c = true ->
  s_eq c (SInt 0) = true.
Proof.
  destruct q as [y|g]; cbn [s_eq s_mul].
  - intros Hy%Z.eqb_eq [= <-] Hp. subst y. rewrite Z.mul_0_r in Hp.
    rewrite <- s_eq_zero_sym. exact Hp.
  - rewrite int_eq_float_0. destruct g as [s|s| |s m e]; try discriminate.
    intros _. cbn [as_float]. destruct (float_of_int n) as [f|]; [|discriminate].
    rewrite !bind_Ok. intros [= <-] Hp. rewrite <- (s_eq_zero_compat _ _ Hp).
    destruct f as [s'|s'| |s' m' e']; cbn [SFmul] in *; try reflexivity;
      destruct c; discriminate.
Qed.

(** The quotient of a zero by 1 is a zero. *)
Lemma s_div_of_zero (c q : Scalar) :
  s_eq c (SInt 0) = true -> s_div c (SInt 1) = Ok q -> s_eq q (SInt 0) = true.
Proof.
  destruct c as [x|f]; cbn [s_eq].
  - intros Hx%Z.eqb_eq. subst. vm_compute. intros [= <-]. reflexivity.
  - rewrite int_eq_float_0. destruct f as [[]|s| |s m e]; try discriminate;
      intros _; vm_compute; intros [= <-]; reflexivity.
Qed.

Lemma trailing_zeros_kept (l : list Scalar) (c : Scalar) :
  last l = Some c -> s_eq c (SInt 0) = false -> drop_trailing_zeros l = l.
Proof.
  induction l as [|a l IH]; [easy|]. intros Hl Hc. cbn [drop_trailing_zeros].
  destruct l as [|b l].
  - injection Hl as ->. cbn [drop_trailing_zeros]. rewrite Hc. reflexivity.
  - rewrite IH by assumption. reflexivity.
Qed.

(** A sequence that ends with a nonzero number is stored as it is. *)
Lemma stored_as_is (l : list Scalar) (c : Scalar) :
  last l = Some c -> s_eq c (SInt 0) = false -> _strip_leading_zeros l = l.
Proof.
  destruct l as [|a l]; [easy|]. destruct l as [|b l]; [reflexivity|].
  intros Hl Hc. cbn [_strip_leading_zeros].
  rewrite (trailing_zeros_kept (b :: l) c Hl Hc). reflexivity.
Qed.

Lemma seq_eq_lookup (ps cs : list Scalar) :
  length ps = length cs ->
  (forall i p c, ps !! i = Some p -> cs !! i = Some c -> s_eq p c = true) ->
  seq_eq ps cs = true.
Proof.
  revert cs. induction ps as [|p ps IH]; intros [|c cs]; try discriminate;
    [reflexivity|].
  intros [= Hlen] H. cbn [seq_eq]. rewrite (H 0%nat p c eq_refl eq_refl).
  apply IH; [exact Hlen|]. intros i. exact (H (S i)).
Qed.

(** The quotients [c_i / (i + 1)] the integral computes. *)
Lemma quotients (cs pre : list Scalar) :
  (forall i c, cs !! i = Some c ->
     exists q, s_div c (SInt (Z.of_nat (length pre + i) + 1)) = Ok q) ->
  exists qs,
    mapM (fun i => c ← index (pre ++ cs)%list i; s_div c (SInt (Z.of_nat i + 1)))
         (seq (length pre) (length cs)) = Ok qs
    /\ length qs = length cs
    /\ forall i c q, cs !! i = Some c -> qs !! i = Some q ->
         s_div c (SInt (Z.of_nat (length pre + i) + 1)) = Ok q.
Proof.
  revert pre. induction cs as [|c cs IH]; intros pre H.
  - exists []. split; [reflexivity|]. split; [reflexivity|]. intros i ? ? [=].
  - destruct (H 0%nat c eq_refl) as [q Hq]. rewrite Nat.add_0_r in Hq.
    destruct (IH (pre ++ [c])%list) as (qs & Hqs & Hlen & Hlk).
    { intros i c' Hc'. rewrite length_app. cbn [length].
      replace (length pre + 1 + i)%nat with (length pre + S i)%nat by lia.
      exact (H (S i) c' Hc'). }
    exists (q :: qs). split; [|split].
    + cbn [length seq mapM]. rewrite index_middle, bind_Ok, Hq, bind_Ok.
      rewrite <- app_assoc, length_app in Hqs. cbn [app length] in Hqs.
      rewrite Nat.add_1_r in Hqs. rewrite Hqs. reflexivity.
    + cbn [length]. rewrite Hlen. reflexivity.
    + intros [|i] c' q'.
      * intros [= <-] [= <-]. rewrite Nat.add_0_r. exact Hq.
      * intros Hc' Hq'. specialize (Hlk i c' q' Hc' Hq').
        rewrite length_app in Hlk. cbn [length] in Hlk.
        replace (length pre + S i)%nat with (length pre + 1 + i)%nat by lia.
        exact Hlk.
Qed.

(** The products [i * co] the derivative computes, for coefficients
    numbered from [off]. *)
Lemma products (qs : list Scalar) (off : nat) :
  (forall i q, qs !! i = Some q ->
     exists p, s_mul (SInt (Z.of_nat (off + i))) q = Ok p) ->
  exists ps,
    mapM (fun '(i, co) => s_mul (SInt (Z.of_nat i)) co)
         (imap (fun i q => ((off + i)%nat, q)) qs) = Ok ps
    /\ length ps = length qs
    /\ forall i q p, qs !! i = Some q -> ps !! i = Some p ->
         s_mul (SInt (Z.of_nat (off + i))) q = Ok p.
Proof.
  revert off. induction qs as [|q qs IH]; intros off H.
  - exists []. split; [reflexivity|]. split; [reflexivity|]. intros i ? ? [=].
  - destruct (H 0%nat q eq_refl) as [p Hp].
    destruct (IH (S off)) as (ps & Hps & Hlen & Hlk).
    { intros i q' Hq'. replace (S off + i)%nat with (off + S i)%nat by lia.
      exact (H (S i) q' Hq'). }
    exists (p :: ps). split; [|split].
    + cbn [imap mapM]. rewrite Hp, bind_Ok.
      rewrite (imap_ext _ (fun i q => ((S off + i)%nat, q)) qs)
        by (intros i x _; cbn; f_equal; lia).
      rewrite Hps. reflexivity.
    + cbn [length]. rewrite Hlen. reflexivity.
    + intros [|i] q' p'.
      * intros [= <-] [= <-]. exact Hp.
      * intros Hq' Hp'. specialize (Hlk i q' p' Hq' Hp').
        replace (off + S i)%nat with (S off + i)%nat by lia. exact Hlk.
Qed.

Lemma exact_round_trip_spec (i : nat) (c : Scalar) :
  exact_round_trip i c = true ->
  exists q p, s_div c (SInt (Z.of_nat i + 1)) = Ok q
              /\ s_mul (SInt (Z.of_nat i + 1)) q = Ok p
              /\ s_eq p c = true.
Proof.
  unfold exact_round_trip.
  destruct (s_div c (SInt (Z.of_nat i + 1))) as [q|] eqn:Hq; [|discriminate].
  rewrite bind_Ok.
  destruct (s_mul (SInt (Z.of_nat i + 1)) q) as [p|] eqn:Hp; [|discriminate].
  rewrite bind_Ok. intros He. exists q, p. auto.
Qed.

Lemma seq_eq_inv (ps cs : list Scalar) :
  seq_eq ps cs = true ->
  length ps = length cs
  /\ forall i p c, ps !! i = Some p -> cs !! i = Some c -> s_eq p c = true.
Proof.
  revert cs. induction ps as [|p ps IH]; intros [|c cs]; try discriminate.
  - intros _. split; [reflexivity|]. intros i ? ? [=].
  - cbn [seq_eq]. intros [Hpc Hrest]%andb_true_iff.
    destruct (IH cs Hrest) as [Hlen Hlk]. split; [cbn [length]; lia|].
    intros [|i] p' c'; [intros [= <-] [= <-]; exact Hpc | apply Hlk].
Qed.

Lemma quotients_inv (cs pre qs : list Scalar) :
  mapM (fun i => c ← index (pre ++ cs)%list i; s_div c (SInt (Z.of_nat i + 1)))
       (seq (length pre) (length cs)) = Ok qs ->
  length qs = length cs
  /\ forall i c q, cs !! i = Some c -> qs !! i = Some q ->
       s_div c (SInt (Z.of_nat (length pre + i) + 1)) = Ok q.
Proof.
  revert pre qs. induction cs as [|c cs IH]; intros pre qs.
  - intros [= <-]. split; [reflexivity|]. intros i ? ? [=].
  - cbn [length seq mapM]. rewrite index_middle, bind_Ok.
    first_call Hq. rename a into q. first_call Hqs. rename a into qs'.
    intros [= <-]. specialize (IH (pre ++ [c])%list qs').
    rewrite <- app_assoc, length_app in IH. cbn [app length] in IH.
    rewrite Nat.add_1_r in IH. destruct (IH Hqs) as [Hlen Hlk].
    split; [cbn [length]; lia|]. intros [|i] c' q'.
    + intros [= <-] [= <-]. rewrite Nat.add_0_r. exact Hq.
    + intros Hc' Hq'. replace (length pre + S i)%nat with (S (length pre) + i)%nat by lia.
      exact (Hlk i c' q' Hc' Hq').
Qed.

Lemma products_inv (qs ps : list Scalar) (off : nat) :
  mapM (fun '(i, co) => s_mul (SInt (Z.of_nat i)) co)
       (imap (fun i q => ((off + i)%nat, q)) qs) = Ok ps ->
  length ps = length qs
  /\ forall i q p, qs !! i = Some q -> ps !! i = Some p ->
       s_mul (SInt (Z.of_nat (off + i))) q = Ok p.
Proof.
  revert ps off. induction qs as [|q qs IH]; intros ps off.
  - intros [= <-]. split; [reflexivity|]. intros i ? ? [=].
  - cbn [imap mapM]. first_call Hp. rename a into p.
    rewrite (imap_ext _ (fun i q => ((S off + i)%nat, q)) qs)
      by (intros i x _; cbn; f_equal; lia).
    first_call Hps. rename a into ps'. intros [= <-].
    destruct (IH ps' (S off) Hps) as [Hlen Hlk].
    split; [cbn [length]; lia|]. intros [|i] q' p'.
    + intros [= <-] [= <-]. exact Hp.
    + intros Hq' Hp'. replace (off + S i)%nat with (S off + i)%nat by lia.
      exact (Hlk i q' p' Hq' Hp').
Qed.

(** Stripping removes a tail. *)
Lemma trailing_zeros_prefix (l : list Scalar) : drop_trailing_zeros l `prefix_of` l.
Proof.
  induction l as [|c l IH]; [reflexivity|]. cbn [drop_trailing_zeros].
  destruct (drop_trailing_zeros l) as [|b r].
  - destruct (s_eq c (SInt 0)); [apply prefix_nil|].
    apply (prefix_cons c [] l), prefix_nil.
  - apply prefix_cons, IH.
Qed.

Lemma strip_prefix (c : Scalar) (l : list Scalar) :
  _strip_leading_zeros (c :: l) `prefix_of` (c :: l).
Proof. apply prefix_cons, trailing_zeros_prefix. Qed.

(** The round trip of a zero coefficient of degree 0 is exact. *)
Lemma zero_round_trip (c : Scalar) :
  s_eq c (SInt 0) = true -> exact_round_trip 0 c = true.
Proof.
  destruct c as [x|f]; cbn [s_eq].
  - intros Hx%Z.eqb_eq. subst. vm_compute. reflexivity.
  - rewrite int_eq_float_0. destruct f as [[]|s| |s m e]; try discriminate;
      intros _; vm_compute; reflexivity.
Qed.

Lemma canonical_shape (cs : list Scalar) :
  canonical cs = true ->
  (exists c, cs = [c] /\ s_eq c (SInt 0) = true)
  \/ (exists d, last cs = Some d /\ s_eq d (SInt 0) = false).
Proof.
  unfold canonical. destruct (last cs) as [d|] eqn:Hd; [|discriminate].
  destruct (s_eq d (SInt 0)) eqn:Hz; [|right; eauto].
  cbn [negb orb]. intros Hlen%Nat.eqb_eq. left.
  destruct cs as [|c [|b l]]; try discriminate. injection Hd as ->. eauto.
Qed.

(** When every round trip is exact, the derivative of the integral is
    [==] to [P]. *)
Lemma derivative_of_integral_if (P : Polynomial) :
  well_formed P ->
  (forall i c, coefficients P !! i = Some c -> exact_round_trip i c = true) ->
  exists I D, integral P (SInt 0) = Ok I /\ derivative I = Ok D
              /\ __eq__ D (VPoly P) = Ok true.
Proof.
  intros Hwf H. destruct P as [cs v]. unfold well_formed in Hwf.
  cbn [coefficients] in *.
  destruct (quotients cs []) as (qs & Hqs & Hlen & Hq).
  { intros i c Hc. destruct (exact_round_trip_spec i c (H i c Hc)) as (q & _ & Hd & _).
    exists q. exact Hd. }
  cbn [app length Nat.add] in Hqs, Hq.
  assert (Hrt : forall i c q, cs !! i = Some c -> qs !! i = Some q ->
            exists p, s_mul (SInt (Z.of_nat (1 + i))) q = Ok p /\ s_eq p c = true).
  { intros i c q Hc Hqi.
    destruct (exact_round_trip_spec i c (H i c Hc)) as (q' & p & Hd & Hm & He).
    rewrite (Hq i c q Hc Hqi) in Hd. injection Hd as <-. exists p.
    replace (Z.of_nat (1 + i)) with (Z.of_nat i + 1) by lia. auto. }
  unfold integral, range, len. cbn [coefficients var]. rewrite Nat2Z.id, Hqs, bind_Ok, init_stores.
  destruct (canonical_shape cs Hwf) as [(c0 & -> & Hz) | (d & Hlast & Hnz)].
  - destruct qs as [|q0 [|? ?]]; try discriminate Hlen.
    pose proof (s_div_of_zero _ _ Hz (Hq 0%nat c0 q0 eq_refl eq_refl)) as Hq0.
    eexists _, _. split; [reflexivity|].
    cbn [_strip_leading_zeros drop_trailing_zeros]. rewrite Hq0.
    split; [reflexivity|].
    cbn [__eq__ coefficients _clean _strip_leading_zeros drop_trailing_zeros seq_eq].
    rewrite s_eq_zero_sym, Hz. reflexivity.
  - rewrite last_lookup in Hlast.
    pose proof (lookup_lt_Some _ _ _ Hlast) as Hpos.
    destruct (lookup_lt_is_Some_2 qs (pred (length cs))) as [qd Hqd]; [lia|].
    destruct (Hrt _ _ _ Hlast Hqd) as (pd & Hpd & Hed).
    assert (Hqnz : s_eq qd (SInt 0) = false).
    { destruct (s_eq qd (SInt 0)) eqn:E; [|reflexivity].
      rewrite (s_mul_by_zero _ _ _ _ E Hpd Hed) in Hnz. discriminate. }
    destruct (products qs 1) as (ps & Hps & Hlenp & Hp).
    { intros i q Hqi. destruct (lookup_lt_is_Some_2 cs i) as [c Hc].
      { rewrite <- Hlen. exact (lookup_lt_Some _ _ _ Hqi). }
      destruct (Hrt i c q Hc Hqi) as (p & Hm & _). eauto. }
    assert (Hpl : ps !! pred (length cs) = Some pd).
    { destruct (lookup_lt_is_Some_2 ps (pred (length cs))) as [p' Hp']; [lia|].
      pose proof (Hp _ _ _ Hqd Hp') as Hm. rewrite Hpd in Hm. congruence. }
    assert (Hstrip : _strip_leading_zeros (SInt 0 :: qs) = SInt 0 :: qs).
    { apply (stored_as_is _ qd); [|exact Hqnz]. rewrite last_cons, last_lookup, Hlen, Hqd.
      reflexivity. }
    rewrite Hstrip. eexists _, _. split; [reflexivity|].
    unfold derivative, len. cbn [coefficients var length].
    replace (Z.of_nat (S (length qs)) =? 1) with false by (symmetry; apply Z.eqb_neq; lia).
    cbn [imap mapM]. change (s_mul (SInt (Z.of_nat 0)) (SInt 0)) with (Ok (SInt 0) : result Scalar).
    rewrite bind_Ok.
    rewrite (imap_ext _ (fun i q => ((1 + i)%nat, q)) qs) by (intros; reflexivity).
    rewrite Hps, !bind_Ok. cbn [drop]. rewrite drop_0, init_stores.
    assert (Hstrip' : _strip_leading_zeros ps = ps).
    { apply (stored_as_is _ pd).
      - rewrite last_lookup, Hlenp, Hlen. exact Hpl.
      - rewrite (s_eq_zero_compat _ _ Hed). exact Hnz. }
    rewrite Hstrip'. split; [reflexivity|]. cbn [__eq__ coefficients]. f_equal.
    apply seq_eq_lookup; [lia|]. intros i p c Hpi Hc.
    destruct (lookup_lt_is_Some_2 qs i) as [q Hqi].
    { rewrite Hlen. exact (lookup_lt_Some _ _ _ Hc). }
    destruct (Hrt i c q Hc Hqi) as (p' & Hm & He).
    rewrite (Hp _ _ _ Hqi Hpi) in Hm. injection Hm as <-. exact He.
Qed.

(** Conversely, when the derivative of the integral is [==] to [P], every
    round trip is exact. *)
Lemma derivative_of_integral_only_if (P : Polynomial) :
  well_formed P ->
  (exists I D, integral P (SInt 0) = Ok I /\ derivative I = Ok D
               /\ __eq__ D (VPoly P) = Ok true) ->
  forall i c, coefficients P !! i = Some c -> exact_round_trip i c = true.
Proof.
  intros Hwf (I & D & HI & HD & Heq). destruct P as [cs v].
  unfold well_formed in Hwf. cbn [coefficients] in *.
  revert HI. unfold integral, range, len. cbn [coefficients var]. rewrite Nat2Z.id.
  first_call Hqs. rename a into qs. rewrite init_stores. intros [= <-].
  destruct (quotients_inv cs [] qs Hqs) as [Hlen Hq]. cbn [length Nat.add] in Hq.
  revert HD. unfold derivative, len. cbn [coefficients var _strip_leading_zeros].
  pose proof (trailing_zeros_prefix qs) as Hpre.
  destruct (drop_trailing_zeros qs) as [|q0 qs'] eqn:Eqs.
  - cbn [length]. change (Z.of_nat 1 =? 1) with true. cbv iota.
    rewrite init_stores. intros [= <-].
    assert (Heq' : seq_eq [SInt 0] cs = true) by (injection Heq; trivial).
    destruct (seq_eq_inv _ _ Heq') as [HlenD Hlk].
    destruct cs as [|c0 [|? ?]]; try discriminate HlenD.
    pose proof (Hlk 0%nat _ _ eq_refl eq_refl) as H0. rewrite s_eq_zero_sym in H0.
    intros [|i] c; [intros [= <-]; apply zero_round_trip, H0 | intros [=]].
  - replace (Z.of_nat (length (SInt 0 :: q0 :: qs')) =? 1) with false
      by (cbn [length]; symmetry; apply Z.eqb_neq; lia).
    assert (Hqz : (0 < length (q0 :: qs'))%nat) by (cbn [length]; lia).
    remember (q0 :: qs') as qz eqn:Eqz. clear Eqz.
    cbn [imap mapM].
    change (s_mul (SInt (Z.of_nat 0)) (SInt 0)) with (Ok (SInt 0) : result Scalar).
    rewrite bind_Ok.
    rewrite (imap_ext _ (fun i q => ((1 + i)%nat, q)) qz) by (intros; reflexivity).
    match goal with
    | |- context [mapM ?f ?l] => destruct (mapM f l) as [ps|] eqn:Hps; [|discriminate]
    end.
    rewrite !bind_Ok. cbn [drop]. rewrite drop_0, init_stores. intros [= <-].
    destruct (products_inv _ _ _ Hps) as [Hlenp Hp].
    destruct ps as [|p0 ps']; [rewrite <- Hlenp in Hqz; cbn [length] in Hqz; lia|].
    assert (Heq' : seq_eq (_strip_leading_zeros (p0 :: ps')) cs = true)
      by (injection Heq; trivial).
    destruct (seq_eq_inv _ _ Heq') as [HlenD Hlk].
    pose proof (strip_prefix p0 ps') as HpreD.
    pose proof (prefix_length _ _ Hpre) as Hl1.
    pose proof (prefix_length _ _ HpreD) as Hl2.
    assert (Hstrip : _strip_leading_zeros (p0 :: ps') = p0 :: ps')
      by (apply prefix_length_eq; [exact HpreD | lia]).
    assert (Hqeq : qz = qs) by (apply prefix_length_eq; [exact Hpre | lia]).
    rewrite Hstrip in Hlk. rewrite Hqeq in Hp.
    intros i c Hc. pose proof (lookup_lt_Some _ _ _ Hc) as Hi.
    destruct (lookup_lt_is_Some_2 qs i) as [q Hqi]; [lia|].
    destruct (lookup_lt_is_Some_2 (p0 :: ps') i) as [p Hpi]; [lia|].
    unfold exact_round_trip. rewrite (Hq i c q Hc Hqi), bind_Ok.
    replace (Z.of_nat i + 1) with (Z.of_nat (1 + i)) by lia.
    rewrite (Hp i q p Hqi Hpi), bind_Ok. exact (Hlk i p c Hpi Hc).
Qed.

(** C6 (derivative of the integral), amended.  For a polynomial [P] of the
    data model, [(P.integral()).derivative() == P] is true exactly when, for
    each coefficient [c] of each degree [i], the number
    [(i + 1) * (c / (i + 1))], as the floats compute it, is [==] to [c]. *)
Theorem derivative_of_integral_exact (P : Polynomial) :
  well_formed P ->
  (exists I D, integral P (SInt 0) = Ok I /\ derivative I = Ok D
               /\ __eq__ D (VPoly P) = Ok true)
  <-> (forall i c, coefficients P !! i = Some c -> exact_round_trip i c = true).
Proof.
  intros Hwf. split.
  - apply derivative_of_integral_only_if, Hwf.
  - apply derivative_of_integral_if, Hwf.
Qed.

Lemma derivative_of_integral_exact_witness :
  well_formed (mkPolynomial
                 [SFloat (S754_finite false 4503599627370496 (-53)); SInt 2; SInt (-3)] "t")
  /\ exists I D,
       integral (mkPolynomial
                   [SFloat (S754_finite false 4503599627370496 (-53)); SInt 2; SInt (-3)] "t")
                (SInt 0) = Ok I
       /\ derivative I = Ok D
       /\ __eq__ D (VPoly (mkPolynomial
                             [SFloat (S754_finite false 4503599627370496 (-53));
                              SInt 2; SInt (-3)] "t"))
          = Ok true.
Proof.
  assert (H : well_formed
                (mkPolynomial
                   [SFloat (S754_finite false 4503599627370496 (-53)); SInt 2; SInt (-3)]
                   "t")) by reflexivity.
  split; [exact H|].
  apply (proj2 (derivative_of_integral_exact _ H)).
  intros [|[|[|i]]] c; cbn [coefficients lookup list_lookup]; intros [= <-];
    vm_compute; reflexivity.
Defined.

(** Rounding breaks the round trip: [29 / 7] is rounded, and 7 times the
    quotient is the float next to 29. *)
Lemma derivative_of_integral_rounds :
  exists I D,
    integral (mkPolynomial [SInt 0; SInt 0; SInt 0; SInt 0; SInt 0; SInt 0; SInt 29] "x")
             (SInt 0) = Ok I
    /\ derivative I = Ok D
    /\ __eq__ D (VPoly (mkPolynomial
                          [SInt 0; SInt 0; SInt 0; SInt 0; SInt 0; SInt 0; SInt 29] "x"))
       = Ok false.
Proof. eexists _, _. split; [|split]; vm_compute; reflexivity. Qed.

End Rounding.

(** ** Multiplication and exponentiation *)

(** A loop whose every turn succeeds and keeps [Inv] succeeds and keeps
    [Inv]. *)
Lemma for_each_total {A S : Type} (Inv : S -> Prop) (xs : list A)
    (body : A -> S -> result S) (s : S) :
  (forall x, x ∈ xs -> forall t, Inv t -> exists t', body x t = Ok t' /\ Inv t') ->
  Inv s -> exists s', for_each xs body s = Ok s' /\ Inv s'.
Proof.
  revert s. induction xs as [|x xs IH]; intros s Hbody Hs; [simpl; eauto|].
  rewrite for_each_cons.
  destruct (Hbody x (list_elem_of_here _ _) s Hs) as (t & -> & Ht).
  rewrite bind_Ok. apply IH; [|exact Ht].
  intros y Hy. apply Hbody. right. exact Hy.
Qed.

Lemma index_lt {A} (l : list A) (i : nat) :
  (i < length l)%nat -> exists x, index l i = Ok x.
Proof.
  intros H. unfold index. destruct (lookup_lt_is_Some_2 l i H) as [x ->]. eauto.
Qed.

Lemma elem_of_range (i : nat) (n : Z) : i ∈ range n -> (Z.of_nat i < n).
Proof. unfold range. rewrite elem_of_seq. lia. Qed.

(** The product of two polynomials never fails; the convolution has
    [len(P) + len(Q) - 1] coefficients. *)
Lemma mul_poly_ok (P Q : Polynomial) :
  exists new_coefficients,
    length new_coefficients = Z.to_nat (__len__ P + __len__ Q - 1)
    /\ __mul__ P (VPoly Q) = __init__ new_coefficients (var P).
Proof.
  unfold __mul__.
  set (n := Z.to_nat (__len__ P + __len__ Q - 1)).
  match goal with
  | |- context [for_each ?xs ?body ?s] =>
      destruct (for_each_total (fun l : list Scalar => length l = n) xs body s)
        as (new & Hnew & Hlen)
  end.
  - intros i Hi t Ht. apply elem_of_range in Hi.
    apply for_each_total; [|exact Ht].
    intros j Hj u Hu. apply elem_of_range in Hj.
    unfold __len__, len in *.
    destruct (index_lt u (i + j)) as [old ->]; [lia|].
    destruct (index_lt (coefficients P) i) as [a ->]; [lia|].
    destruct (index_lt (coefficients Q) j) as [b ->]; [lia|].
    rewrite !bind_Ok. unfold setitem.
    rewrite bool_decide_eq_true_2 by lia.
    eexists. split; [reflexivity|]. rewrite length_insert. exact Hu.
  - apply length_replicate.
  - exists new. split; [exact Hlen|]. rewrite Hnew. reflexivity.
Qed.

Lemma bind_ret {A : Type} (m : result A) : (m ≫= Ok) = m.
Proof. destruct m; reflexivity. Qed.

Lemma for_each_seq_S {S : Type} (f : S -> result S) (a n : nat) (s : S) :
  for_each (seq a (Datatypes.S n)) (fun _ r => f r) s
  = (for_each (seq a n) (fun _ r => f r) s ≫= f).
Proof.
  rewrite seq_S, for_each_app.
  destruct (for_each (seq a n) (fun _ r => f r) s); [|reflexivity].
  rewrite !bind_Ok, for_each_cons. apply bind_ret.
Qed.

Lemma pow_repeated (P : Polynomial) (n : nat) :
  __pow__ P (VNum (SInt (Z.of_nat n))) = repeated_product P n.
Proof.
  unfold __pow__. replace (Z.of_nat n <? 0) with false by (symmetry; apply Z.ltb_ge; lia).
  unfold range. rewrite Nat2Z.id, init_ok, bind_Ok.
  induction n as [|n IH];
    [cbn [seq for_each repeated_product]; rewrite init_ok; reflexivity|].
  rewrite for_each_seq_S, IH. reflexivity.
Qed.

Lemma repeated_product_ok (P : Polynomial) (n : nat) :
  exists R, repeated_product P n = Ok R.
Proof.
  induction n as [|n [R IH]]; cbn [repeated_product].
  - rewrite init_ok. eauto.
  - rewrite IH, bind_Ok. destruct (mul_poly_ok R P) as (new & _ & ->).
    rewrite init_ok. eauto.
Qed.



(** ** Rendering *)

Lemma append_nil_r (s : string) : s ++ "" = s.
Proof. induction s as [|c s IH]; [reflexivity|]. rewrite append_cons, IH. reflexivity. Qed.

Lemma append_assoc (s t u : string) : (s ++ t) ++ u = s ++ (t ++ u).
Proof.
  induction s as [|c s IH]; [reflexivity|]. rewrite !append_cons, IH. reflexivity.
Qed.

Lemma render_terms_later (fr : Qc -> string) (v : string) (ts : list (nat * Scalar)) :
  render_terms fr true v ts = join (map (later_term_text fr v) ts).
Proof. induction ts as [|t ts IH]; [reflexivity|]. cbn. rewrite IH. reflexivity. Qed.

Lemma render_terms_first (fr : Qc -> string) (v : string) (ts : list (nat * Scalar)) :
  render_terms fr false v ts = terms_text fr v ts.
Proof. destruct ts as [|t ts]; [reflexivity|]. cbn. rewrite render_terms_later. reflexivity. Qed.

Lemma nonzero_terms_from_0 (cs : list Scalar) :
  nonzero_terms_from 0 cs = nonzero_terms cs.
Proof. reflexivity. Qed.

Lemma nonzero_terms_from_cons (off : nat) (c : Scalar) (cs : list Scalar) :
  nonzero_terms_from off (c :: cs)
  = if s_eq c (SInt 0) then nonzero_terms_from (S off) cs
    else (off, c) :: nonzero_terms_from (S off) cs.
Proof.
  unfold nonzero_terms_from. cbn [imap List.filter snd]. rewrite Nat.add_0_r.
  assert (E : imap ((fun i c0 => ((off + i)%nat, c0)) ∘ S) cs
              = imap (fun i c0 => ((S off + i)%nat, c0)) cs).
  { apply imap_ext. intros i x _. cbn. f_equal. lia. }
  rewrite E. destruct (s_eq c (SInt 0)); reflexivity.
Qed.

(** What one turn of the loop appends for a nonzero coefficient. *)
Lemma str_step_nonzero (fr : Qc -> string) (P : Polynomial) (i : nat) (c : Scalar)
    (res : string) (found : bool) :
  index (coefficients P) i = Ok c ->
  s_eq c (SInt 0) = false ->
  str_step fr P i (res, found)
  = Ok (res ++ (if found then later_term_text fr (var P) (i, c)
                else first_term_text fr (var P) (i, c)), true).
Proof.
  intros Hi Hz. unfold str_step. rewrite Hi, bind_Ok, Hz.
  unfold later_term_text, first_term_text, term_text, magnitude_text, power_text.
  cbn [fst snd].
  assert (Hmag : (if negb (s_eq (s_abs c) (SInt 1)) || (i =? 0)%nat
                  then str_scalar fr (s_abs c) else "")
                 = (if (1 <=? i)%nat && s_eq (s_abs c) (SInt 1) then ""
                    else str_scalar fr (s_abs c))).
  { destruct i as [|i]; destruct (s_eq (s_abs c) (SInt 1)); reflexivity. }
  rewrite Hmag.
  destruct i as [|[|i]]; cbn [Nat.eqb]; destruct found; cbn [negb];
    rewrite ?append_nil_r, ?append_assoc; reflexivity.
Qed.

Lemma str_step_zero (fr : Qc -> string) (P : Polynomial) (i : nat) (c : Scalar)
    (st : string * bool) :
  index (coefficients P) i = Ok c ->
  s_eq c (SInt 0) = true ->
  str_step fr P i st = Ok st.
Proof.
  intros Hi Hz. unfold str_step. destruct st as [res found].
  rewrite Hi, bind_Ok, Hz. reflexivity.
Qed.

Lemma str_loop (fr : Qc -> string) (v : string) (cs pre : list Scalar)
    (res : string) (found : bool) :
  for_each (seq (length pre) (length cs))
           (str_step fr (mkPolynomial (pre ++ cs) v)) (res, found)
  = Ok (res ++ render_terms fr found v (nonzero_terms_from (length pre) cs),
        found || negb (bool_decide (nonzero_terms_from (length pre) cs = []))).
Proof.
  revert pre res found. induction cs as [|c cs IH]; intros pre res found.
  - cbn. rewrite append_nil_r, orb_false_r. reflexivity.
  - cbn [length seq]. rewrite for_each_cons, nonzero_terms_from_cons.
    specialize (IH (pre ++ [c])%list). rewrite <- app_assoc, length_app in IH.
    cbn [app length] in IH. rewrite Nat.add_1_r in IH.
    destruct (s_eq c (SInt 0)) eqn:Hz.
    + rewrite (str_step_zero fr _ _ c); [|apply index_middle|exact Hz].
      rewrite bind_Ok. apply IH.
    + rewrite (str_step_nonzero fr _ _ c); [|apply index_middle|exact Hz].
      rewrite bind_Ok, IH. cbn [render_terms var].
      rewrite append_assoc, orb_true_r. reflexivity.
Qed.

Lemma str_render (fr : Qc -> string) (P : Polynomial) :
  __str__ fr P
  = Ok (let r := terms_text fr (var P) (nonzero_terms (coefficients P)) in
        if bool_decide (r = "") then "0" else r).
Proof.
  unfold __str__, range, len. rewrite Nat2Z.id.
  pose proof (str_loop fr (var P) (coefficients P) [] "" false) as H.
  cbn [app length] in H. destruct P as [cs v]. cbn [coefficients var] in *.
  rewrite H, bind_Ok. cbn [fst]. rewrite append_nil, render_terms_first.
  reflexivity.
Qed.

Lemma append_nonempty_l (s t : string) : s <> "" -> s ++ t <> "".
Proof. destruct s; [easy|]. intros _. rewrite append_cons. discriminate. Qed.

Lemma append_nonempty_r (s t : string) : t <> "" -> s ++ t <> "".
Proof. destruct s; [easy|]. intros _. rewrite append_cons. discriminate. Qed.

Lemma str_int_nonempty (z : Z) : str_int z <> "".
Proof.
  unfold str_int, NilZero.string_of_int.
  destruct (Z.to_int z) as [d|d]; [|discriminate].
  destruct d; discriminate.
Qed.

Lemma term_text_nonempty (fr : Qc -> string) (v : string) (t : nat * Scalar) :
  (forall q, fr q <> "") -> v <> "" -> term_text fr v t <> "".
Proof.
  intros Hfr Hv. destruct t as [[|[|i]] c]; unfold term_text, magnitude_text, power_text;
    cbn [fst snd Nat.leb andb].
  - apply append_nonempty_l. destruct (s_abs c); cbn; auto using str_int_nonempty.
  - apply append_nonempty_r, Hv.
  - apply append_nonempty_r, append_nonempty_l, Hv.
Qed.

Lemma terms_text_nonempty (fr : Qc -> string) (v : string) (ts : list (nat * Scalar)) :
  (forall q, fr q <> "") -> v <> "" -> ts <> [] -> terms_text fr v ts <> "".
Proof.
  intros Hfr Hv. destruct ts as [|t ts]; [easy|]. intros _. cbn [terms_text].
  apply append_nonempty_l. unfold first_term_text.
  apply append_nonempty_r, term_text_nonempty; assumption.
Qed.

Lemma nonzero_terms_all_zero (off : nat) (cs : list Scalar) :
  Forall (fun c => s_eq c (SInt 0) = true) cs -> nonzero_terms_from off cs = [].
Proof.
  intros H. revert off. induction H as [|c cs Hc _ IH]; intros off; [reflexivity|].
  rewrite nonzero_terms_from_cons, Hc. apply IH.
Qed.

Lemma str_empty_variable :
  exists p, __init__ [SInt 0; SInt 1] "" = Ok p
            /\ __str__ (fun _ => "0.0") p = Ok "0"
            /\ rendering (fun _ => "0.0") p = "".
Proof. eexists. split; [apply init_ok|]. split; vm_compute; reflexivity. Qed.

(** C9 (rendering), amended.  For a polynomial whose variable name is not
    empty, [str(P)] renders the nonzero terms by ascending degree: the
    first with a bare minus when negative, each later one behind [" + "] or
    [" - "], the magnitude left out when it is 1 and the degree is at least
    1 and always written at degree 0.  The all-zero polynomial renders as
    ["0"], and [str(Polynomial(2, -3, 1))] is ["2 - 3x + x^2"]. *)
Theorem str_spec (float_repr : Qc -> string) (P : Polynomial) :
  (forall q, float_repr q <> "") ->
  var P <> "" ->
  __str__ float_repr P = Ok (rendering float_repr P)
  /\ (forall N : Polynomial,
        Forall (fun c => s_eq c (SInt 0) = true) (coefficients N) ->
        __str__ float_repr N = Ok "0")
  /\ (exists p, __init__ [SInt 2; SInt (-3); SInt 1] "x" = Ok p
                /\ __str__ float_repr p = Ok "2 - 3x + x^2").
Proof.
  intros Hfr Hv. split; [|split].
  - rewrite str_render. unfold rendering. cbn zeta.
    destruct (nonzero_terms (coefficients P)) as [|t ts] eqn:E; [reflexivity|].
    rewrite bool_decide_eq_false_2; [reflexivity|].
    apply terms_text_nonempty; easy.
  - intros N Hz. rewrite str_render, <- nonzero_terms_from_0.
    rewrite (nonzero_terms_all_zero 0 _ Hz). reflexivity.
  - eexists. split; [apply init_ok|]. vm_compute. reflexivity.
Qed.

Lemma str_spec_witness :
  (forall q : Qc, (fun _ : Qc => "0.5") q <> "")
  /\ var (mkPolynomial [SInt 0; SInt (-1); SFloat (Q2Qc (1 # 2))] "t") <> ""
  /\ __str__ (fun _ => "0.5") (mkPolynomial [SInt 0; SInt (-1); SFloat (Q2Qc (1 # 2))] "t")
     = Ok (rendering (fun _ => "0.5")
             (mkPolynomial [SInt 0; SInt (-1); SFloat (Q2Qc (1 # 2))] "t")).
Proof.
  assert (H1 : forall q : Qc, (fun _ : Qc => "0.5") q <> "") by (intros q; discriminate).
  assert (H2 : var (mkPolynomial [SInt 0; SInt (-1); SFloat (Q2Qc (1 # 2))] "t") <> "")
    by (simpl; discriminate).
  split; [exact H1|]. split; [exact H2|].
  exact (proj1 (str_spec (fun _ => "0.5")
                  (mkPolynomial [SInt 0; SInt (-1); SFloat (Q2Qc (1 # 2))] "t") H1 H2)).
Defined.

(** ** The canonical form is kept by every operation *)

Lemma well_formed_nonempty (P : Polynomial) : well_formed P -> coefficients P <> [].
Proof. apply canonical_nonempty. Qed.

Lemma map_nonempty {A B} (f : A -> B) (l : list A) : l <> [] -> map f l <> [].
Proof. destruct l; [easy | discriminate]. Qed.

(** Whatever the arguments, what the constructor stores is canonical. *)
Lemma strip_always_canonical (args : list Scalar) :
  canonical (_strip_leading_zeros args) = true.
Proof. destruct args; [reflexivity | apply strip_canonical; discriminate]. Qed.

Lemma init_well_formed (args : list Scalar) (v : string) (P : Polynomial) :
  __init__ args v = Ok P -> well_formed P.
Proof. rewrite init_ok. intros [= <-]. apply strip_always_canonical. Qed.

Lemma add_well_formed (P R : Polynomial) (other : PyValue) :
  __add__ P other = Ok R -> well_formed R.
Proof.
  destruct other as [s|Q|t].
  - unfold __add__. first_call E. apply init_well_formed.
  - rewrite add_polynomial. discriminate.
  - discriminate.
Qed.

Lemma neg_well_formed (P R : Polynomial) : __neg__ P = Ok R -> well_formed R.
Proof. apply init_well_formed. Qed.

Lemma sub_well_formed (P R : Polynomial) (other : PyValue) :
  __sub__ P other = Ok R -> well_formed R.
Proof. unfold __sub__. first_call E. apply add_well_formed. Qed.

Lemma mul_well_formed (P R : Polynomial) (other : PyValue) :
  __mul__ P other = Ok R -> well_formed R.
Proof.
  destruct other as [s|Q|t].
  - apply init_well_formed.
  - destruct (mul_poly_ok P Q) as (new & _ & ->). apply init_well_formed.
  - discriminate.
Qed.

Lemma truediv_well_formed (P R : Polynomial) (other : PyValue) :
  __truediv__ P other = Ok R -> well_formed R.
Proof.
  destruct other as [s|Q|t]; try discriminate.
  unfold __truediv__. first_call E. apply init_well_formed.
Qed.

Lemma pow_well_formed (P R : Polynomial) (n : PyValue) :
  __pow__ P n = Ok R -> well_formed R.
Proof.
  destruct n as [[z|q]|Q|t]; try discriminate.
  unfold __pow__. destruct (z <? 0); [discriminate|].
  first_call E. apply for_each_invariant.
  - intros _ r r' Hmul _. exact (mul_well_formed r r' _ Hmul).
  - exact (init_well_formed _ _ _ E).
Qed.

Lemma copy_well_formed (P R : Polynomial) : copy P = Ok R -> well_formed R.
Proof. apply init_well_formed. Qed.

Lemma derivative_well_formed (P R : Polynomial) : derivative P = Ok R -> well_formed R.
Proof.
  unfold derivative. destruct (len (coefficients P) =? 1); apply init_well_formed.
Qed.

Lemma integral_well_formed (P R : Polynomial) (constant : Scalar) :
  integral P constant = Ok R -> well_formed R.
Proof. rewrite integral_ok. apply init_well_formed. Qed.

Lemma compose_well_formed (P R : Polynomial) (other : PyValue) :
  compose P other = Ok R -> well_formed R.
Proof.
  destruct other as [s|Q|t]; try discriminate.
  unfold compose. first_call E. apply for_each_invariant.
  - intros i r r'. first_call Ec. first_call Ep. first_call Et.
    intros Hadd _. exact (add_well_formed _ _ _ Hadd).
  - exact (init_well_formed _ _ _ E).
Qed.

Lemma from_roots_well_formed (args : list Scalar) (v : string) (R : Polynomial) :
  from_roots args v = Ok R -> well_formed R.
Proof.
  unfold from_roots. first_call E. apply for_each_invariant.
  - intros root r r'. first_call Ef. intros Hmul _. exact (mul_well_formed _ _ _ Hmul).
  - exact (init_well_formed _ _ _ E).
Qed.

Lemma from_string_well_formed (str v : string) (R : Polynomial) :
  from_string str v = Ok R -> well_formed R.
Proof. unfold from_string. first_call E. apply init_well_formed. Qed.

Create HintDb canonical.
#[local] Hint Resolve init_well_formed add_well_formed sub_well_formed
  neg_well_formed mul_well_formed truediv_well_formed pow_well_formed
  copy_well_formed derivative_well_formed integral_well_formed
  compose_well_formed from_roots_well_formed from_string_well_formed
  : canonical.

(** C5 (canonical form).  The constructor returns on every sequence of
    numbers, the empty one included, and the polynomial it returns has a
    non-empty coefficient sequence whose last coefficient is nonzero unless
    it is the only one.  So has the result of every successful [+],
    reflected [+], [-], negation, [*], reflected [*], [/], [**], [copy],
    [derivative], [integral], [compose], [from_roots] and [from_string],
    whatever the operands. *)
Theorem canonical_form_kept (P R : Polynomial) (other : PyValue) :
  (forall args v, exists R0, __init__ args v = Ok R0 /\ well_formed R0)
  /\ (__add__ P other = Ok R -> well_formed R)
  /\ (__radd__ P other = Ok R -> well_formed R)
  /\ (__sub__ P other = Ok R -> well_formed R)
  /\ (__neg__ P = Ok R -> well_formed R)
  /\ (__mul__ P other = Ok R -> well_formed R)
  /\ (__rmul__ P other = Ok R -> well_formed R)
  /\ (__truediv__ P other = Ok R -> well_formed R)
  /\ (__pow__ P other = Ok R -> well_formed R)
  /\ (copy P = Ok R -> well_formed R)
  /\ (derivative P = Ok R -> well_formed R)
  /\ (forall constant, integral P constant = Ok R -> well_formed R)
  /\ (compose P other = Ok R -> well_formed R)
  /\ (forall args v, from_roots args v = Ok R -> well_formed R)
  /\ (forall str v, from_string str v = Ok R -> well_formed R).
Proof.
  split.
  - intros args v. rewrite init_ok. eexists. split; [reflexivity|].
    apply strip_always_canonical.
  - repeat split; intros; eauto with canonical.
Qed.

Lemma canonical_form_kept_witness :
  (exists R0, __init__ [] "x" = Ok R0 /\ well_formed R0)
  /\ __mul__ (mkPolynomial [SInt 1; SInt 1] "x")
             (VPoly (mkPolynomial [SInt (-1); SInt 1] "x"))
     = Ok (mkPolynomial [SInt (-1); SInt 0; SInt 1] "x")
  /\ well_formed (mkPolynomial [SInt (-1); SInt 0; SInt 1] "x").
Proof.
  assert (H : __mul__ (mkPolynomial [SInt 1; SInt 1] "x")
                      (VPoly (mkPolynomial [SInt (-1); SInt 1] "x"))
              = Ok (mkPolynomial [SInt (-1); SInt 0; SInt 1] "x"))
    by (vm_compute; reflexivity).
  destruct (canonical_form_kept (mkPolynomial [SInt 1; SInt 1] "x")
              (mkPolynomial [SInt (-1); SInt 0; SInt 1] "x")
              (VPoly (mkPolynomial [SInt (-1); SInt 1] "x")))
    as (Hinit & _ & _ & _ & _ & Hmul & _).
  split; [exact (Hinit [] "x")|]. split; [exact H | exact (Hmul H)].
Defined.

(** ** Sanity checks on the worked examples of the specification *)

Example normalization :
  __init__ [SInt 1; SInt 0; SInt 0] "x" = Ok (mkPolynomial [SInt 1] "x").
Proof. reflexivity. Qed.

Example roots_round_trip :
  from_roots [SInt 1; SInt (-1)] "x"
  = Ok (mkPolynomial [SInt (-1); SInt 0; SInt 1] "x").
Proof. vm_compute. reflexivity. Qed.

Example type_error_on_invalid_operand :
  __add__ (mkPolynomial [SInt 1] "x") (VOther "str")
  = Raise (PolynomialTypeError "add" "str").
Proof. reflexivity. Qed.

(** * Further properties of the class *)

(** ** Coefficients as numbers *)

Lemma coef_nil (i : nat) : coef [] i = 0%Qc.
Proof. reflexivity. Qed.

Lemma coef_cons_S (c : Scalar) (l : list Scalar) (i : nat) : coef (c :: l) (S i) = coef l i.
Proof. reflexivity. Qed.

Lemma coef_ge (l : list Scalar) (i : nat) : (length l <= i)%nat -> coef l i = 0%Qc.
Proof. intros H. unfold coef. rewrite lookup_ge_None_2 by exact H. reflexivity. Qed.

Lemma coef_lookup (l : list Scalar) (i : nat) (c : Scalar) :
  l !! i = Some c -> coef l i = value c.
Proof. intros H. unfold coef. rewrite H. reflexivity. Qed.

Lemma coef_drop_trailing_zeros (l : list Scalar) (i : nat) :
  coef (drop_trailing_zeros l) i = coef l i.
Proof.
  revert i. induction l as [|c l IH]; intros i; [reflexivity|].
  cbn [drop_trailing_zeros].
  destruct (drop_trailing_zeros l) as [|b r] eqn:E.
  - destruct (s_eq c (SInt 0)) eqn:Hc.
    + destruct i as [|i]; cbn.
      * symmetry. apply s_eq_zero, Hc.
      * rewrite coef_cons_S, <- IH. reflexivity.
    + destruct i as [|i]; [reflexivity|]. rewrite !coef_cons_S, <- IH. reflexivity.
  - destruct i as [|i]; [reflexivity|]. rewrite !coef_cons_S. apply IH.
Qed.

Lemma coef_strip (l : list Scalar) (i : nat) :
  coef (_strip_leading_zeros l) i = coef l i.
Proof.
  destruct l as [|c l].
  - destruct i as [|i]; [apply Qc_of_Z_0 | reflexivity].
  - destruct i as [|i]; [reflexivity|].
    cbn [_strip_leading_zeros]. rewrite !coef_cons_S. apply coef_drop_trailing_zeros.
Qed.

(** Two sequences without trailing zero that have the same coefficients
    have the same values. *)
Lemma coef_eq_values (l1 l2 : list Scalar) :
  (forall c, last l1 = Some c -> s_eq c (SInt 0) = false) ->
  (forall c, last l2 = Some c -> s_eq c (SInt 0) = false) ->
  (forall i, coef l1 i = coef l2 i) ->
  map value l1 = map value l2.
Proof.
  assert (Hnil : forall l : list Scalar,
             (forall c, last l = Some c -> s_eq c (SInt 0) = false) ->
             (forall i, coef l i = 0%Qc) -> l = []).
  { intros l Hl Hz. destruct (last l) as [c|] eqn:E; [|apply last_None, E].
    pose proof (Hl c eq_refl) as Hc. apply s_eq_false in Hc.
    rewrite last_lookup in E. rewrite <- (coef_lookup _ _ _ E), Hz in Hc.
    cbn in Hc. rewrite Qc_of_Z_0 in Hc. congruence. }
  revert l2. induction l1 as [|a l1 IH]; intros l2 H1 H2 Hc.
  - rewrite (Hnil l2 H2); [reflexivity|]. intros i. rewrite <- Hc. reflexivity.
  - destruct l2 as [|b l2].
    + rewrite (Hnil (a :: l1) H1); [reflexivity|]. intros i. rewrite Hc. reflexivity.
    + cbn [map]. f_equal; [exact (Hc 0%nat)|]. apply IH.
      * intros c Hl. apply H1. destruct l1; [discriminate | exact Hl].
      * intros c Hl. apply H2. destruct l2; [discriminate | exact Hl].
      * intros i. exact (Hc (S i)).
Qed.

Lemma canonical_tail (c : Scalar) (l : list Scalar) :
  canonical (c :: l) = true ->
  forall d, last l = Some d -> s_eq d (SInt 0) = false.
Proof.
  unfold canonical. intros H d Hd. destruct l as [|b l]; [discriminate|].
  change (last (c :: b :: l)) with (last (b :: l)) in H. rewrite Hd in H.
  cbn [length Nat.eqb] in H. rewrite orb_false_r in H.
  apply negb_true_iff, H.
Qed.

(** Two canonical sequences with the same coefficients are [==]. *)
Lemma canonical_coef_eq (l1 l2 : list Scalar) :
  canonical l1 = true -> canonical l2 = true ->
  (forall i, coef l1 i = coef l2 i) ->
  seq_eq l1 l2 = true.
Proof.
  intros H1 H2 Hc. apply seq_eq_values.
  destruct l1 as [|a l1]; [discriminate|]. destruct l2 as [|b l2]; [discriminate|].
  cbn [map]. f_equal; [exact (Hc 0%nat)|].
  apply coef_eq_values; eauto using canonical_tail.
  intros i. exact (Hc (S i)).
Qed.

Lemma coef_cons_0 (c : Scalar) (l : list Scalar) : coef (c :: l) 0 = value c.
Proof. reflexivity. Qed.

Lemma value_0 : value (SInt 0) = 0%Qc.
Proof. apply Qc_of_Z_0. Qed.

Lemma value_1 : value (SInt 1) = 1%Qc.
Proof. apply Qc_of_Z_1. Qed.

Lemma coef_map (f : Scalar -> Scalar) (g : Qc -> Qc) (l : list Scalar) (i : nat) :
  (forall c, value (f c) = g (value c)) -> g 0%Qc = 0%Qc ->
  coef (map f l) i = g (coef l i).
Proof.
  intros Hf Hg. unfold coef. rewrite list_lookup_fmap.
  destruct (l !! i); cbn; auto.
Qed.

(** ** What each operation does to the coefficients *)

Lemma denotes_init (l : list Scalar) (v : string) (f : nat -> Qc) :
  l <> [] -> (forall i, coef l i = f i) -> denotes (__init__ l v) f.
Proof.
  intros Hne Hf. rewrite init_ok. eexists. split; [reflexivity|].
  split; [apply strip_canonical, Hne|]. intros i. cbn [coefficients].
  rewrite coef_strip. apply Hf.
Qed.

Lemma denotes_self (P : Polynomial) :
  well_formed P -> denotes (Ok P) (coef (coefficients P)).
Proof. intros H. exists P. auto. Qed.

Lemma denotes_ext (r : result Polynomial) (f g : nat -> Qc) :
  denotes r f -> (forall i, f i = g i) -> denotes r g.
Proof.
  intros (R & HR & Hwf & Hf) Hfg. exists R. split; [exact HR|].
  split; [exact Hwf|]. intros i. rewrite Hf. apply Hfg.
Qed.

Lemma denotes_equal (r1 r2 : result Polynomial) (f : nat -> Qc) :
  denotes r1 f -> denotes r2 f -> equal_results r1 r2.
Proof.
  intros (R1 & -> & Hwf1 & Hf1) (R2 & -> & Hwf2 & Hf2). exists R1, R2.
  split; [reflexivity|]. split; [reflexivity|]. cbn [__eq__]. f_equal.
  apply canonical_coef_eq; try assumption. intros i. rewrite Hf1, Hf2. reflexivity.
Qed.


Lemma neg_denotes (P : Polynomial) :
  well_formed P ->
  denotes (__neg__ P) (fun i => - coef (coefficients P) i)%Qc.
Proof.
  intros HP. apply denotes_init.
  - apply map_nonempty, well_formed_nonempty, HP.
  - intros i. apply (coef_map s_neg Qcopp); [|ring].
    intros [z|q]; [|reflexivity]. cbn. unfold Qc_of_Z. apply Qc_is_canon.
    cbn. rewrite !Qred_correct. unfold inject_Z, Qopp. reflexivity.
Qed.

Lemma mul_scalar_denotes (P : Polynomial) (s : Scalar) :
  well_formed P ->
  denotes (__mul__ P (VNum s)) (fun i => coef (coefficients P) i * value s)%Qc.
Proof.
  intros HP. apply denotes_init.
  - apply map_nonempty, well_formed_nonempty, HP.
  - intros i. apply (coef_map (fun co => s_mul co s) (fun x => x * value s)%Qc); [|ring].
    intros c. apply value_s_mul.
Qed.

Lemma value_s_neg (s : Scalar) : value (s_neg s) = (- value s)%Qc.
Proof.
  destruct s as [z|q]; [|reflexivity]. cbn. unfold Qc_of_Z. apply Qc_is_canon.
  cbn. rewrite !Qred_correct. unfold inject_Z, Qopp. reflexivity.
Qed.

Lemma denotes_zero : denotes (__init__ [SInt 0] "x") (fun _ => 0%Qc).
Proof.
  apply denotes_init; [discriminate|]. intros [|i]; [apply value_0 | reflexivity].
Qed.

(** ** Negation and multiplication by a number *)

Lemma value_m1 : value (SInt (-1)) = (- (1))%Qc.
Proof. apply Qc_is_canon. reflexivity. Qed.

(** X3.  Negation is an involution up to [==]: [-(-P) == P]. *)
Theorem neg_involutive (P : Polynomial) :
  well_formed P ->
  exists N, __neg__ P = Ok N /\ equal_results (__neg__ N) (Ok P).
Proof.
  intros HP. destruct (neg_denotes P HP) as (N & HN & HwfN & HcN).
  exists N. split; [exact HN|].
  apply (denotes_equal _ _ (coef (coefficients P))); [|apply denotes_self, HP].
  apply (denotes_ext _ _ _ (neg_denotes N HwfN)). intros i. rewrite HcN. ring.
Qed.

Lemma neg_involutive_witness :
  well_formed (mkPolynomial [SInt 1; SFloat 2] "x")
  /\ exists N, __neg__ (mkPolynomial [SInt 1; SFloat 2] "x") = Ok N
               /\ equal_results (__neg__ N) (Ok (mkPolynomial [SInt 1; SFloat 2] "x")).
Proof.
  assert (H : well_formed (mkPolynomial [SInt 1; SFloat 2] "x")) by reflexivity.
  split; [exact H|]. exact (neg_involutive _ H).
Defined.

(** X5.  Multiplication by the numbers 1, 0 and -1: [P * 1 == P],
    [P * 0 == Polynomial(0)] and [P * -1 == -P]. *)
Theorem scalar_mul_laws (P : Polynomial) :
  well_formed P ->
  equal_results (__mul__ P (VNum (SInt 1))) (Ok P)
  /\ equal_results (__mul__ P (VNum (SInt 0))) (__init__ [SInt 0] "x")
  /\ equal_results (__mul__ P (VNum (SInt (-1)))) (__neg__ P).
Proof.
  intros HP. split; [|split].
  - apply (denotes_equal _ _ (coef (coefficients P))); [|apply denotes_self, HP].
    apply (denotes_ext _ _ _ (mul_scalar_denotes P _ HP)).
    intros i. rewrite value_1. ring.
  - apply (denotes_equal _ _ (fun _ => 0%Qc)); [|apply denotes_zero].
    apply (denotes_ext _ _ _ (mul_scalar_denotes P _ HP)).
    intros i. rewrite value_0. ring.
  - apply (denotes_equal _ _ (fun i => - coef (coefficients P) i)%Qc);
      [|apply neg_denotes, HP].
    apply (denotes_ext _ _ _ (mul_scalar_denotes P _ HP)).
    intros i. rewrite value_m1. ring.
Qed.

Lemma scalar_mul_laws_witness :
  well_formed (mkPolynomial [SInt 1; SFloat 2] "x")
  /\ equal_results (__mul__ (mkPolynomial [SInt 1; SFloat 2] "x") (VNum (SInt (-1))))
                   (__neg__ (mkPolynomial [SInt 1; SFloat 2] "x")).
Proof.
  assert (H : well_formed (mkPolynomial [SInt 1; SFloat 2] "x")) by reflexivity.
  split; [exact H|]. exact (proj2 (proj2 (scalar_mul_laws _ H))).
Defined.

(** ** Derivative and integral on the coefficients *)

Lemma s_eq_nonzero (c : Scalar) : s_eq c (SInt 0) = false <-> value c <> 0%Qc.
Proof.
  rewrite <- s_eq_zero. destruct (s_eq c (SInt 0)); split; congruence.
Qed.

Lemma canonical_of_last (l : list Scalar) (d : Scalar) :
  last l = Some d -> s_eq d (SInt 0) = false -> canonical l = true.
Proof. intros Hd Hz. unfold canonical. rewrite Hd, Hz. reflexivity. Qed.


Lemma Qc_mul_nonzero (x y : Qc) : x <> 0%Qc -> y <> 0%Qc -> (x * y)%Qc <> 0%Qc.
Proof. intros Hx Hy H. destruct (Qcmult_integral _ _ H); contradiction. Qed.





(** ** The product of two polynomials *)

(** The rule of a counting loop: an invariant that holds at the start and
    that every turn re-establishes holds at the end, and the loop does not
    fail. *)
Lemma for_each_seq_rule {S : Type} (Inv : nat -> S -> Prop)
    (body : nat -> S -> result S) (a n : nat) (s : S) :
  Inv a s ->
  (forall k t, (a <= k < a + n)%nat -> Inv k t ->
               exists t', body k t = Ok t' /\ Inv (Datatypes.S k) t') ->
  exists s', for_each (seq a n) body s = Ok s' /\ Inv (a + n)%nat s'.
Proof.
  revert a s. induction n as [|n IH]; intros a s Hs Hbody.
  - exists s. rewrite Nat.add_0_r. split; [reflexivity | exact Hs].
  - cbn [seq]. rewrite for_each_cons.
    destruct (Hbody a s ltac:(lia) Hs) as (t & -> & Ht). rewrite bind_Ok.
    destruct (IH (Datatypes.S a) t Ht) as (s' & Hs' & Hinv).
    + intros k u Hk. apply Hbody. lia.
    + exists s'. split; [exact Hs'|]. replace (a + Datatypes.S n)%nat
        with (Datatypes.S a + n)%nat by lia. exact Hinv.
Qed.

Lemma coef_insert (l : list Scalar) (i k : nat) (x : Scalar) :
  (i < length l)%nat ->
  coef (<[i := x]> l) k = if bool_decide (k = i) then value x else coef l k.
Proof.
  intros Hi. unfold coef. case_bool_decide as E.
  - subst k. rewrite list_lookup_insert_eq by exact Hi. reflexivity.
  - rewrite list_lookup_insert_ne by congruence. reflexivity.
Qed.

Lemma sum_to_ext (n : nat) (f g : nat -> Qc) :
  (forall i, (i < n)%nat -> f i = g i) -> sum_to n f = sum_to n g.
Proof.
  induction n as [|n IH]; intros H; [reflexivity|]. cbn [sum_to].
  rewrite IH, (H n) by (intros; auto with lia). reflexivity.
Qed.

Lemma sum_to_add (n : nat) (f g : nat -> Qc) :
  sum_to n (fun i => f i + g i)%Qc = (sum_to n f + sum_to n g)%Qc.
Proof. induction n as [|n IH]; cbn [sum_to]; [ring | rewrite IH; ring]. Qed.

Lemma sum_to_scale (n : nat) (c : Qc) (f : nat -> Qc) :
  sum_to n (fun i => c * f i)%Qc = (c * sum_to n f)%Qc.
Proof. induction n as [|n IH]; cbn [sum_to]; [ring | rewrite IH; ring]. Qed.

Lemma sum_to_zero (n : nat) (f : nat -> Qc) :
  (forall i, (i < n)%nat -> f i = 0%Qc) -> sum_to n f = 0%Qc.
Proof.
  induction n as [|n IH]; intros H; [reflexivity|]. cbn [sum_to].
  rewrite IH, (H n) by (intros; auto with lia). ring.
Qed.

Lemma sum_to_vanish (n m : nat) (f : nat -> Qc) :
  (forall i, (n <= i)%nat -> f i = 0%Qc) -> (n <= m)%nat -> sum_to m f = sum_to n f.
Proof.
  intros Hf. induction m as [|m IH]; intros Hnm.
  - replace n with 0%nat by lia. reflexivity.
  - destruct (decide (n = Datatypes.S m)) as [->|Hne]; [reflexivity|].
    cbn [sum_to]. rewrite IH, Hf by lia. ring.
Qed.

Lemma sum_to_shift (n : nat) (f : nat -> Qc) :
  sum_to (Datatypes.S n) f = (f 0%nat + sum_to n (fun i => f (Datatypes.S i)))%Qc.
Proof.
  induction n as [|n IH]; [cbn [sum_to]; ring|].
  change (sum_to (Datatypes.S (Datatypes.S n)) f)
    with (sum_to (Datatypes.S n) f + f (Datatypes.S n))%Qc.
  rewrite IH. cbn [sum_to]. ring.
Qed.

Lemma sum_to_rev (k : nat) (f : nat -> Qc) :
  sum_to (Datatypes.S k) f = sum_to (Datatypes.S k) (fun i => f (k - i)%nat).
Proof.
  revert f. induction k as [|k IH]; intros f; [reflexivity|].
  rewrite sum_to_shift. change (sum_to (Datatypes.S (Datatypes.S k)) (fun i => f (Datatypes.S k - i)%nat))
    with (sum_to (Datatypes.S k) (fun i => f (Datatypes.S k - i)%nat)
          + f (Datatypes.S k - Datatypes.S k)%nat)%Qc.
  rewrite Nat.sub_diag, (IH (fun i => f (Datatypes.S i))).
  rewrite (sum_to_ext _ (fun i => f (Datatypes.S (k - i))) (fun i => f (Datatypes.S k - i)%nat)).
  - ring.
  - intros i Hi. f_equal. lia.
Qed.

Lemma sum_to_guard (n k : nat) (g : nat -> Qc) :
  (forall i, (n <= i)%nat -> g i = 0%Qc) ->
  sum_to n (fun i => if bool_decide (i <= k)%nat then g i else 0%Qc)
  = sum_to (Datatypes.S k) g.
Proof.
  intros Hg. destruct (decide (n <= Datatypes.S k)%nat) as [Hle|Hgt].
  - rewrite (sum_to_vanish n (Datatypes.S k) g Hg Hle). apply sum_to_ext.
    intros i Hi. rewrite bool_decide_eq_true_2 by lia. reflexivity.
  - rewrite (sum_to_vanish (Datatypes.S k) n); [|
      intros i Hi; rewrite bool_decide_eq_false_2 by lia; reflexivity | lia].
    apply sum_to_ext. intros i Hi. rewrite bool_decide_eq_true_2 by lia. reflexivity.
Qed.

Lemma index_lookup {A} (l : list A) (i : nat) (x : A) : l !! i = Some x -> index l i = Ok x.
Proof. intros H. unfold index. rewrite H. reflexivity. Qed.

(** The inner loop of [__mul__] adds [a * Q], shifted by [i] degrees. *)
Lemma mul_inner_loop (qs new : list Scalar) (i : nat) (a : Scalar) (ps : list Scalar) :
  ps !! i = Some a ->
  (i + length qs <= length new)%nat ->
  exists new',
    for_each (range (len qs)) (fun j new_coefficients =>
      old ← index new_coefficients (i + j);
      a ← index ps i;
      b ← index qs j;
      setitem new_coefficients (i + j) (s_add old (s_mul a b))) new = Ok new'
    /\ length new' = length new
    /\ forall k, coef new' k
                 = (coef new k + if bool_decide (i <= k)%nat
                                 then value a * coef qs (k - i) else 0)%Qc.
Proof.
  intros Ha Hlen. unfold range, len. rewrite Nat2Z.id.
  match goal with
  | |- context [for_each _ ?body _] =>
      destruct (for_each_seq_rule
                  (fun m t => length t = length new
                              /\ forall k, coef t k
                                  = (coef new k
                                     + if bool_decide (i <= k /\ k - i < m)%nat
                                       then value a * coef qs (k - i) else 0)%Qc)
                  body 0 (length qs) new) as (new' & Hnew' & Hl & Hc)
  end.
  - split; [reflexivity|]. intros k. rewrite bool_decide_eq_false_2 by lia. ring.
  - intros m t Hm [Hl Hc].
    destruct (lookup_lt_is_Some_2 t (i + m)) as [old Et]; [lia|].
    destruct (lookup_lt_is_Some_2 qs m) as [b Eq]; [lia|].
    rewrite (index_lookup _ _ _ Et), bind_Ok, (index_lookup _ _ _ Ha), bind_Ok.
    rewrite (index_lookup _ _ _ Eq), bind_Ok. unfold setitem.
    rewrite bool_decide_eq_true_2 by lia. eexists. split; [reflexivity|].
    split; [rewrite length_insert; exact Hl|].
    intros k. rewrite coef_insert by lia.
    destruct (decide (k = i + m)%nat) as [Ek|Ek];
      [rewrite (bool_decide_eq_true_2 (k = i + m)%nat) by exact Ek
      |rewrite (bool_decide_eq_false_2 (k = i + m)%nat) by exact Ek].
    + subst k. rewrite value_s_add, value_s_mul, <- (coef_lookup _ _ _ Et), Hc.
      rewrite bool_decide_eq_false_2 by lia. rewrite bool_decide_eq_true_2 by lia.
      replace (i + m - i)%nat with m by lia. rewrite (coef_lookup _ _ _ Eq). ring.
    + rewrite Hc. destruct (decide (i <= k /\ k - i < m)%nat) as [H|H].
      * rewrite !bool_decide_eq_true_2 by lia. reflexivity.
      * rewrite !bool_decide_eq_false_2 by lia. reflexivity.
  - exists new'. split; [exact Hnew'|]. split; [exact Hl|].
    intros k. rewrite Hc. cbn [Nat.add].
    destruct (decide (i <= k)%nat) as [Hik|Hik].
    + rewrite (bool_decide_eq_true_2 (i <= k)%nat) by exact Hik.
      destruct (decide (k - i < length qs)%nat) as [H|H].
      * rewrite bool_decide_eq_true_2 by lia. reflexivity.
      * rewrite bool_decide_eq_false_2 by lia. rewrite (coef_ge qs) by lia. ring.
    + rewrite !bool_decide_eq_false_2 by lia. reflexivity.
Qed.

Lemma coef_replicate_zero (n k : nat) : coef (replicate n (SInt 0)) k = 0%Qc.
Proof.
  unfold coef. destruct (replicate n (SInt 0) !! k) as [c|] eqn:E; [|reflexivity].
  apply lookup_replicate in E as [-> _]. apply value_0.
Qed.

(** The product never fails, and its coefficient of degree [k] is the sum
    of the [P[i] * Q[k - i]]. *)
Lemma mul_poly_coef (P Q : Polynomial) :
  exists new_coefficients,
    __mul__ P (VPoly Q) = __init__ new_coefficients (var P)
    /\ length new_coefficients = Z.to_nat (__len__ P + __len__ Q - 1)
    /\ forall k, coef new_coefficients k = conv (coefficients P) (coefficients Q) k.
Proof.
  unfold __mul__. set (ps := coefficients P). set (qs := coefficients Q).
  set (N := Z.to_nat (__len__ P + __len__ Q - 1)).
  assert (HN : forall i, (i < length ps)%nat -> (i + length qs <= N)%nat \/ qs = []).
  { intros i Hi. subst N. unfold __len__, len. fold ps qs.
    destruct qs; [right; reflexivity | left; cbn [length]; lia]. }
  unfold range at 1, len at 1. rewrite Nat2Z.id.
  match goal with
  | |- context [for_each (seq 0 (length ps)) ?body ?s] =>
      destruct (for_each_seq_rule
                  (fun n t => length t = N
                              /\ forall k, coef t k
                                  = sum_to n (fun i => if bool_decide (i <= k)%nat
                                                       then coef ps i * coef qs (k - i)
                                                       else 0)%Qc)
                  body 0 (length ps) s) as (new & Hnew & Hl & Hc)
  end.
  - split; [apply length_replicate|]. intros k. apply coef_replicate_zero.
  - intros i t Hi [Hl Hc].
    destruct (lookup_lt_is_Some_2 ps i ltac:(lia)) as [a Ha].
    destruct (HN i ltac:(lia)) as [Hle|Hq].
    + destruct (mul_inner_loop qs t i a ps Ha ltac:(lia)) as (t' & Ht' & Hl' & Hc').
      exists t'. split; [exact Ht'|]. split; [lia|].
      intros k. rewrite Hc', Hc. cbn [sum_to]. rewrite (coef_lookup _ _ _ Ha).
      reflexivity.
    + exists t. rewrite Hq. split; [reflexivity|]. split; [exact Hl|].
      intros k. rewrite Hc. cbn [sum_to]. rewrite Hq.
      destruct (bool_decide (i <= k)%nat); rewrite ?coef_nil; ring.
  - exists new. rewrite Hnew, bind_Ok. split; [reflexivity|]. split; [exact Hl|].
    intros k. rewrite Hc. cbn [Nat.add]. unfold conv.
    apply (sum_to_guard (length ps) k (fun i => coef ps i * coef qs (k - i))%Qc).
    intros i Hi. rewrite (coef_ge ps) by exact Hi. ring.
Qed.

Lemma conv_comm (p q : list Scalar) (k : nat) : conv p q k = conv q p k.
Proof.
  unfold conv. rewrite sum_to_rev. apply sum_to_ext. intros i Hi.
  replace (k - (k - i))%nat with i by lia. ring.
Qed.

Lemma mul_denotes (P Q : Polynomial) :
  well_formed P -> well_formed Q ->
  denotes (__mul__ P (VPoly Q)) (conv (coefficients P) (coefficients Q)).
Proof.
  intros HP HQ. destruct (mul_poly_coef P Q) as (new & -> & Hlen & Hc).
  apply denotes_init; [|exact Hc]. intros ->. cbn [length] in Hlen.
  apply well_formed_nonempty in HP. apply well_formed_nonempty in HQ.
  unfold __len__, len in Hlen.
  destruct (coefficients P); [easy|]. destruct (coefficients Q); [easy|].
  cbn [length] in Hlen. lia.
Qed.

Lemma mul_any_ok (P R : Polynomial) :
  exists B, __mul__ P (VPoly R) = Ok B
            /\ forall k, coef (coefficients B) k = conv (coefficients P) (coefficients R) k.
Proof.
  destruct (mul_poly_coef P R) as (new & -> & _ & Hc). rewrite init_ok.
  eexists. split; [reflexivity|]. intros k. cbn [coefficients].
  rewrite coef_strip. apply Hc.
Qed.

(** X9.  The product of two polynomials with int coefficients is
    commutative up to [==]: [P * Q == Q * P]. *)
Theorem mul_commutative (P Q : Polynomial) :
  well_formed P -> well_formed Q ->
  int_coefficients P -> int_coefficients Q ->
  equal_results (__mul__ P (VPoly Q)) (__mul__ Q (VPoly P)).
Proof.
  intros HP HQ _ _. apply (denotes_equal _ _ (conv (coefficients P) (coefficients Q))).
  - apply mul_denotes; assumption.
  - apply (denotes_ext _ _ _ (mul_denotes Q P HQ HP)). intros k. apply conv_comm.
Qed.

Lemma mul_commutative_witness :
  well_formed (mkPolynomial [SInt 1; SInt 2] "x") /\ well_formed (mkPolynomial [SInt 0; SInt 1; SInt 3] "x")
  /\ int_coefficients (mkPolynomial [SInt 1; SInt 2] "x") /\ int_coefficients (mkPolynomial [SInt 0; SInt 1; SInt 3] "x")
  /\ equal_results (__mul__ (mkPolynomial [SInt 1; SInt 2] "x") (VPoly (mkPolynomial [SInt 0; SInt 1; SInt 3] "x"))) (__mul__ (mkPolynomial [SInt 0; SInt 1; SInt 3] "x") (VPoly (mkPolynomial [SInt 1; SInt 2] "x"))).
Proof.
  assert (H1 : well_formed (mkPolynomial [SInt 1; SInt 2] "x")) by reflexivity.
  assert (H2 : well_formed (mkPolynomial [SInt 0; SInt 1; SInt 3] "x")) by reflexivity.
  assert (H3 : int_coefficients (mkPolynomial [SInt 1; SInt 2] "x")) by reflexivity.
  assert (H4 : int_coefficients (mkPolynomial [SInt 0; SInt 1; SInt 3] "x")) by reflexivity.
  split; [exact H1|]. split; [exact H2|]. split; [exact H3|]. split; [exact H4|].
  exact (mul_commutative _ _ H1 H2 H3 H4).
Defined.

Lemma conv_constant (p : list Scalar) (c : Scalar) (k : nat) :
  conv p [c] k = (coef p k * value c)%Qc.
Proof.
  rewrite conv_comm. unfold conv. rewrite sum_to_shift, Nat.sub_0_r, coef_cons_0.
  rewrite sum_to_zero; [ring|]. intros i _. rewrite coef_cons_S, coef_nil. ring.
Qed.



Lemma sum_to_single (n j : nat) (f : nat -> Qc) :
  (j < n)%nat -> (forall i, (i < n)%nat -> i <> j -> f i = 0%Qc) -> sum_to n f = f j.
Proof.
  induction n as [|n IH]; intros Hj Hf; [lia|]. cbn [sum_to].
  destruct (decide (j = n)) as [->|Hne].
  - rewrite sum_to_zero; [ring|]. intros i Hi. apply Hf; lia.
  - rewrite IH, (Hf n) by (try lia; intros; apply Hf; lia). ring.
Qed.

(** The leading coefficient of a product is the product of the leading
    coefficients. *)
Lemma mul_leading (P Q : Polynomial) (dp dq : Scalar) :
  last (coefficients P) = Some dp -> s_eq dp (SInt 0) = false ->
  last (coefficients Q) = Some dq -> s_eq dq (SInt 0) = false ->
  exists R d, __mul__ P (VPoly Q) = Ok R /\ degree R = degree P + degree Q
              /\ last (coefficients R) = Some d
              /\ value d = (value dp * value dq)%Qc
              /\ var R = var P.
Proof.
  intros Hdp Hzp Hdq Hzq.
  destruct (mul_poly_coef P Q) as (new & -> & Hlen & Hc).
  unfold degree, __len__, len in *.
  rewrite last_lookup in Hdp, Hdq.
  pose proof (lookup_lt_Some _ _ _ Hdp) as Hlp. pose proof (lookup_lt_Some _ _ _ Hdq) as Hlq.
  set (np := length (coefficients P)) in *. set (nq := length (coefficients Q)) in *.
  assert (Hnew : length new = (np + nq - 1)%nat) by lia.
  destruct (lookup_lt_is_Some_2 new (pred (length new))) as [c Hlast]; [lia|].
  assert (Hv : value c = (value dp * value dq)%Qc).
  { rewrite <- (coef_lookup _ _ _ Hlast), Hc. unfold conv.
    rewrite (sum_to_single _ (pred np)); [| lia |].
    - replace (pred (length new) - pred np)%nat with (pred nq) by lia.
      rewrite (coef_lookup _ _ _ Hdp), (coef_lookup _ _ _ Hdq). reflexivity.
    - intros i Hi Hne. destruct (decide (i < pred np)%nat).
      + rewrite (coef_ge (coefficients Q)) by (fold nq; lia). ring.
      + rewrite (coef_ge (coefficients P)) by (fold np; lia). ring. }
  assert (Hcz : s_eq c (SInt 0) = false).
  { apply s_eq_nonzero. rewrite Hv. apply Qc_mul_nonzero; apply s_eq_nonzero; assumption. }
  rewrite <- last_lookup in Hlast. rewrite init_ok.
  exists (mkPolynomial (_strip_leading_zeros new) (var P)), c.
  rewrite (strip_id new (canonical_of_last _ _ Hlast Hcz)). cbn [coefficients var].
  split; [reflexivity|]. split; [lia|]. split; [assumption|]. split; [exact Hv | reflexivity].
Qed.

(** X12.  The product of two nonzero polynomials with int coefficients is
    nonzero and its degree is the sum of their degrees. *)
Theorem degree_of_product (P Q : Polynomial) :
  int_coefficients P -> int_coefficients Q ->
  (exists d, last (coefficients P) = Some d /\ s_eq d (SInt 0) = false) ->
  (exists d, last (coefficients Q) = Some d /\ s_eq d (SInt 0) = false) ->
  exists R d, __mul__ P (VPoly Q) = Ok R /\ degree R = degree P + degree Q
              /\ last (coefficients R) = Some d /\ s_eq d (SInt 0) = false.
Proof.
  intros _ _ (dp & Hdp & Hzp) (dq & Hdq & Hzq).
  destruct (mul_leading P Q dp dq Hdp Hzp Hdq Hzq) as (R & d & HR & Hdeg & Hlast & Hv & _).
  exists R, d. repeat (split; [assumption|]).
  apply s_eq_nonzero. rewrite Hv. apply Qc_mul_nonzero; apply s_eq_nonzero; assumption.
Qed.

Lemma degree_of_product_witness :
  int_coefficients (mkPolynomial [SInt 1; SInt 2] "x") /\ int_coefficients (mkPolynomial [SInt 0; SInt 1; SInt 3] "x")
  /\ (exists d, last (coefficients (mkPolynomial [SInt 1; SInt 2] "x")) = Some d /\ s_eq d (SInt 0) = false)
  /\ (exists d, last (coefficients (mkPolynomial [SInt 0; SInt 1; SInt 3] "x")) = Some d /\ s_eq d (SInt 0) = false)
  /\ exists R d, __mul__ (mkPolynomial [SInt 1; SInt 2] "x") (VPoly (mkPolynomial [SInt 0; SInt 1; SInt 3] "x")) = Ok R
                 /\ degree R = degree (mkPolynomial [SInt 1; SInt 2] "x") + degree (mkPolynomial [SInt 0; SInt 1; SInt 3] "x")
                 /\ last (coefficients R) = Some d /\ s_eq d (SInt 0) = false.
Proof.
  assert (H1 : int_coefficients (mkPolynomial [SInt 1; SInt 2] "x")) by reflexivity.
  assert (H2 : int_coefficients (mkPolynomial [SInt 0; SInt 1; SInt 3] "x")) by reflexivity.
  assert (H3 : exists d, last (coefficients (mkPolynomial [SInt 1; SInt 2] "x")) = Some d /\ s_eq d (SInt 0) = false)
    by (exists (SInt 2); split; reflexivity).
  assert (H4 : exists d, last (coefficients (mkPolynomial [SInt 0; SInt 1; SInt 3] "x")) = Some d /\ s_eq d (SInt 0) = false)
    by (exists (SInt 3); split; reflexivity).
  split; [exact H1|]. split; [exact H2|]. split; [exact H3|]. split; [exact H4|].
  exact (degree_of_product _ _ H1 H2 H3 H4).
Defined.

(** ** Evaluation *)

Lemma Qcpower_S (q : Qc) (n : nat) : (q ^ Datatypes.S n)%Qc = (q * q ^ n)%Qc.
Proof. reflexivity. Qed.

Lemma value_s_pow (n : Scalar) (i : nat) : value (s_pow n i) = (value n ^ i)%Qc.
Proof.
  destruct n as [z|q]; [|reflexivity]. cbn [s_pow value].
  induction i as [|i IH]; [apply Qc_of_Z_1|].
  rewrite Nat2Z.inj_succ, Z.pow_succ_r by lia. rewrite Qc_of_Z_mul, IH. reflexivity.
Qed.

(** The value as the sum of the [c_i * x ** i]. *)
Lemma peval_sum (l : list Scalar) (x : Qc) (n : nat) :
  (length l <= n)%nat -> peval l x = sum_to n (fun i => coef l i * x ^ i)%Qc.
Proof.
  revert n. induction l as [|c l IH]; intros n Hn.
  - rewrite sum_to_zero; [reflexivity|]. intros i _. rewrite coef_nil. ring.
  - destruct n as [|n]; [cbn in Hn; lia|]. rewrite sum_to_shift, coef_cons_0.
    cbn [peval]. rewrite (IH n) by (cbn in Hn; lia). rewrite <- sum_to_scale.
    rewrite (sum_to_ext n (fun i => coef (c :: l) (Datatypes.S i) * x ^ Datatypes.S i)%Qc
                          (fun i => x * (coef l i * x ^ i))%Qc).
    + cbn [Qcpower]. ring.
    + intros i _. rewrite coef_cons_S, Qcpower_S. ring.
Qed.

Lemma peval_coef_ext (l1 l2 : list Scalar) (x : Qc) :
  (forall i, coef l1 i = coef l2 i) -> peval l1 x = peval l2 x.
Proof.
  intros H. rewrite (peval_sum l1 x (length l1 + length l2)) by lia.
  rewrite (peval_sum l2 x (length l1 + length l2)) by lia.
  apply sum_to_ext. intros i _. rewrite H. reflexivity.
Qed.

Lemma peval_linear (l p q : list Scalar) (a b x : Qc) :
  (forall i, coef l i = a * coef p i + b * coef q i)%Qc ->
  peval l x = (a * peval p x + b * peval q x)%Qc.
Proof.
  intros H. set (n := (length l + length p + length q)%nat).
  rewrite (peval_sum l x n), (peval_sum p x n), (peval_sum q x n) by (subst n; lia).
  rewrite <- !sum_to_scale, <- sum_to_add. apply sum_to_ext.
  intros i _. rewrite H. ring.
Qed.

Lemma conv_cons (a : Scalar) (p q : list Scalar) (k : nat) :
  conv (a :: p) q k
  = (value a * coef q k + match k with
                          | O => 0
                          | Datatypes.S k' => conv p q k'
                          end)%Qc.
Proof.
  unfold conv. rewrite sum_to_shift, coef_cons_0, Nat.sub_0_r. f_equal.
  destruct k as [|k']; [reflexivity|]. apply sum_to_ext. intros i _.
  rewrite coef_cons_S. reflexivity.
Qed.

Lemma sum_conv (p q : list Scalar) (x : Qc) (n : nat) :
  (length p + length q <= n)%nat ->
  sum_to n (fun k => conv p q k * x ^ k)%Qc = (peval p x * peval q x)%Qc.
Proof.
  revert n. induction p as [|a p IH]; intros n Hn.
  - rewrite sum_to_zero; [cbn [peval]; ring|]. intros k _. unfold conv.
    rewrite sum_to_zero; [ring|]. intros i _. rewrite coef_nil. ring.
  - destruct n as [|n]; [cbn in Hn; lia|].
    rewrite (sum_to_ext _ _ (fun k => value a * (coef q k * x ^ k)
                                      + match k with
                                        | O => 0
                                        | Datatypes.S k' => conv p q k' * x ^ k
                                        end)%Qc).
    2: { intros k _. rewrite conv_cons. destruct k; ring. }
    rewrite sum_to_add, sum_to_scale, <- (peval_sum q x) by (cbn in Hn; lia).
    rewrite sum_to_shift.
    rewrite (sum_to_ext n _ (fun k => x * (conv p q k * x ^ k))%Qc).
    2: { intros k _. rewrite Qcpower_S. ring. }
    rewrite sum_to_scale, IH by (cbn in Hn; lia). cbn [peval]. ring.
Qed.

Lemma peval_conv (l p q : list Scalar) (x : Qc) :
  (forall k, coef l k = conv p q k) -> peval l x = (peval p x * peval q x)%Qc.
Proof.
  intros H. rewrite (peval_sum l x (length l + length p + length q)) by lia.
  rewrite <- (sum_conv p q x (length l + length p + length q)) by lia.
  apply sum_to_ext. intros k _. rewrite H. reflexivity.
Qed.

Lemma value_foldl_terms (n : Scalar) (cs : list Scalar) (off : nat) (acc : Scalar) :
  value (foldl s_add acc (imap (fun i c => s_mul c (s_pow n (off + i))) cs))
  = (value acc + value n ^ off * peval cs (value n))%Qc.
Proof.
  revert off acc. induction cs as [|c cs IH]; intros off acc.
  - cbn [imap foldl peval]. ring.
  - cbn [imap foldl peval].
    rewrite (imap_ext _ (fun i c => s_mul c (s_pow n (Datatypes.S off + i))) cs).
    2: { intros i y _. unfold Basics.compose. do 2 f_equal. lia. }
    rewrite IH, value_s_add, value_s_mul, value_s_pow, Nat.add_0_r, Qcpower_S. ring.
Qed.

(** [evaluate] never fails, and returns the value of the polynomial. *)
Lemma evaluate_ok (P : Polynomial) (n : Scalar) :
  evaluates_to P n (peval (coefficients P) (value n)).
Proof.
  unfold evaluates_to, evaluate, range, __len__, len. rewrite Nat2Z.id.
  pose proof (mapM_index (fun i c => Ok (s_mul c (s_pow n i)))
                (fun i c => s_mul c (s_pow n i)) (fun i c => eq_refl)
                (coefficients P) []) as H.
  cbn [app length] in H. rewrite H, bind_Ok. eexists. split; [reflexivity|].
  rewrite (value_foldl_terms n (coefficients P) 0 (SInt 0)), value_0.
  cbn [Qcpower]. ring.
Qed.

Lemma eval_init (l : list Scalar) (v : string) :
  exists R, __init__ l v = Ok R /\ forall x, peval (coefficients R) x = peval l x.
Proof.
  rewrite init_ok. eexists. split; [reflexivity|]. intros x. cbn [coefficients].
  apply peval_coef_ext. intros i. apply coef_strip.
Qed.

Lemma eval_mul (P Q : Polynomial) :
  exists M, __mul__ P (VPoly Q) = Ok M
            /\ forall x, peval (coefficients M) x
                         = (peval (coefficients P) x * peval (coefficients Q) x)%Qc.
Proof.
  destruct (mul_any_ok P Q) as (M & HM & Hc). exists M. split; [exact HM|].
  intros x. apply peval_conv, Hc.
Qed.

Lemma eval_mul_scalar (P : Polynomial) (s : Scalar) :
  exists M, __mul__ P (VNum s) = Ok M
            /\ forall x, peval (coefficients M) x = (peval (coefficients P) x * value s)%Qc.
Proof.
  unfold __mul__. destruct (eval_init (map (fun co => s_mul co s) (coefficients P)) (var P))
    as (M & HM & Hc).
  exists M. split; [exact HM|]. intros x. rewrite Hc.
  rewrite (peval_linear _ (coefficients P) [] (value s) 0); [cbn [peval]; ring|].
  intros i. rewrite coef_nil.
  rewrite (coef_map (fun co => s_mul co s) (fun y => y * value s)%Qc); [ring| |ring].
  intros c. apply value_s_mul.
Qed.

Lemma eval_pow (P : Polynomial) (k : nat) :
  exists R, __pow__ P (VNum (SInt (Z.of_nat k))) = Ok R
            /\ forall x, peval (coefficients R) x = (peval (coefficients P) x ^ k)%Qc.
Proof.
  rewrite pow_repeated. induction k as [|k (R & HR & Hc)]; cbn [repeated_product].
  - destruct (eval_init [SInt 1] (var P)) as (R & HR & Hc). exists R.
    split; [exact HR|]. intros x. rewrite Hc. cbn [peval Qcpower]. rewrite value_1. ring.
  - rewrite HR, bind_Ok. destruct (eval_mul R P) as (M & HM & HcM). exists M.
    split; [exact HM|]. intros x. rewrite HcM, Hc, Qcpower_S. ring.
Qed.

(** X13.  On int coefficients and at an int, [evaluate] is compatible with
    the products: [evaluate(P * Q, n) == evaluate(P, n) * evaluate(Q, n)] and
    [evaluate(P * s, n) == evaluate(P, n) * s]. *)
Theorem evaluate_product (P Q : Polynomial) (s n : Z) :
  int_coefficients P -> int_coefficients Q ->
  exists M T eP eQ eM eT,
    evaluate P (SInt n) = Ok eP /\ evaluate Q (SInt n) = Ok eQ
    /\ __mul__ P (VPoly Q) = Ok M /\ evaluate M (SInt n) = Ok eM
    /\ s_eq eM (s_mul eP eQ) = true
    /\ __mul__ P (VNum (SInt s)) = Ok T /\ evaluate T (SInt n) = Ok eT
    /\ s_eq eT (s_mul eP (SInt s)) = true.
Proof.
  intros _ _. destruct (eval_mul P Q) as (M & HM & HcM).
  destruct (eval_mul_scalar P (SInt s)) as (T & HT & HcT).
  destruct (evaluate_ok P (SInt n)) as (eP & HeP & HvP).
  destruct (evaluate_ok Q (SInt n)) as (eQ & HeQ & HvQ).
  destruct (evaluate_ok M (SInt n)) as (eM & HeM & HvM).
  destruct (evaluate_ok T (SInt n)) as (eT & HeT & HvT).
  exists M, T, eP, eQ, eM, eT. repeat (split; [assumption|]).
  split; [|split; [assumption|split; [assumption|]]]; apply s_eq_true.
  - rewrite value_s_mul, HvM, HvP, HvQ. apply HcM.
  - rewrite value_s_mul, HvT, HvP. apply HcT.
Qed.

Lemma evaluate_product_witness :
  int_coefficients (mkPolynomial [SInt 1; SInt 2] "x") /\ int_coefficients (mkPolynomial [SInt 0; SInt 1; SInt 3] "x")
  /\ exists M T eP eQ eM eT,
       evaluate (mkPolynomial [SInt 1; SInt 2] "x") (SInt 3) = Ok eP /\ evaluate (mkPolynomial [SInt 0; SInt 1; SInt 3] "x") (SInt 3) = Ok eQ
       /\ __mul__ (mkPolynomial [SInt 1; SInt 2] "x") (VPoly (mkPolynomial [SInt 0; SInt 1; SInt 3] "x")) = Ok M /\ evaluate M (SInt 3) = Ok eM
       /\ s_eq eM (s_mul eP eQ) = true
       /\ __mul__ (mkPolynomial [SInt 1; SInt 2] "x") (VNum (SInt (-2))) = Ok T /\ evaluate T (SInt 3) = Ok eT
       /\ s_eq eT (s_mul eP (SInt (-2))) = true.
Proof.
  assert (H1 : int_coefficients (mkPolynomial [SInt 1; SInt 2] "x")) by reflexivity.
  assert (H2 : int_coefficients (mkPolynomial [SInt 0; SInt 1; SInt 3] "x")) by reflexivity.
  split; [exact H1|]. split; [exact H2|]. exact (evaluate_product _ _ (-2) 3 H1 H2).
Defined.

(** X14.  On int coefficients and at an int,
    [evaluate(P ** k, n) == evaluate(P, n) ** k] for every non-negative int
    [k]. *)
Theorem evaluate_power (P : Polynomial) (k : nat) (n : Z) :
  int_coefficients P ->
  exists R eP eR,
    __pow__ P (VNum (SInt (Z.of_nat k))) = Ok R
    /\ evaluate P (SInt n) = Ok eP /\ evaluate R (SInt n) = Ok eR
    /\ s_eq eR (s_pow eP k) = true.
Proof.
  intros _. destruct (eval_pow P k) as (R & HR & Hc).
  destruct (evaluate_ok P (SInt n)) as (eP & HeP & HvP).
  destruct (evaluate_ok R (SInt n)) as (eR & HeR & HvR).
  exists R, eP, eR. repeat (split; [assumption|]).
  apply s_eq_true. rewrite value_s_pow, HvR, HvP. apply Hc.
Qed.

Lemma evaluate_power_witness :
  int_coefficients (mkPolynomial [SInt 1; SInt 2] "x")
  /\ exists R eP eR,
       __pow__ (mkPolynomial [SInt 1; SInt 2] "x") (VNum (SInt (Z.of_nat 3))) = Ok R
       /\ evaluate (mkPolynomial [SInt 1; SInt 2] "x") (SInt (-2)) = Ok eP /\ evaluate R (SInt (-2)) = Ok eR
       /\ s_eq eR (s_pow eP 3) = true.
Proof.
  assert (H : int_coefficients (mkPolynomial [SInt 1; SInt 2] "x")) by reflexivity.
  split; [exact H|]. exact (evaluate_power _ 3 (-2) H).
Defined.

Lemma eval_from_roots_loop (var : string) (rs : list Scalar) (R0 : Polynomial) :
  exists R,
    for_each rs (fun root result =>
      factor ← __init__ [s_neg root; SInt 1] var;
      __mul__ result (VPoly factor)) R0 = Ok R
    /\ forall x, peval (coefficients R) x
                 = (peval (coefficients R0) x
                    * foldr (fun r acc => (x - value r) * acc) 1 rs)%Qc.
Proof.
  revert R0. induction rs as [|r rs IH]; intros R0.
  - exists R0. split; [reflexivity|]. intros x. cbn [foldr]. ring.
  - rewrite for_each_cons.
    destruct (eval_init [s_neg r; SInt 1] var) as (F & -> & HF). rewrite bind_Ok.
    destruct (eval_mul R0 F) as (M & -> & HM). rewrite bind_Ok.
    destruct (IH M) as (R & HR & Hc). exists R. split; [exact HR|].
    intros x. rewrite Hc, HM, HF. cbn [peval foldr]. rewrite value_s_neg, value_1. ring.
Qed.

Lemma root_product_zero (x : Qc) (r : Scalar) (rs : list Scalar) :
  In r rs -> x = value r -> foldr (fun r acc => (x - value r) * acc)%Qc 1%Qc rs = 0%Qc.
Proof.
  intros Hin ->. induction rs as [|a rs IH]; [destruct Hin|].
  cbn [foldr]. destruct Hin as [->|Hin]; [ring|]. rewrite (IH Hin). ring.
Qed.

(** X16.  [from_roots] on int roots returns a polynomial that vanishes at
    each of them: [evaluate(from_roots(r_1, ..., r_k), r_i) == 0]. *)
Theorem from_roots_vanishes (args : list Z) (v : string) (r : Z) :
  In r args ->
  exists R e, from_roots (map SInt args) v = Ok R
              /\ evaluate R (SInt r) = Ok e /\ s_eq e (SInt 0) = true.
Proof.
  intros Hin. unfold from_roots.
  destruct (eval_init [SInt 1] v) as (R0 & -> & H0). rewrite bind_Ok.
  destruct (eval_from_roots_loop v (map SInt args) R0) as (R & HR & Hc).
  destruct (evaluate_ok R (SInt r)) as (e & He & Hv).
  exists R, e. split; [exact HR|]. split; [exact He|].
  apply s_eq_zero. rewrite Hv, Hc.
  rewrite (root_product_zero _ (SInt r) (map SInt args) (in_map SInt _ _ Hin) eq_refl).
  ring.
Qed.

Lemma from_roots_vanishes_witness :
  In (-1) [1; -1]
  /\ exists R e, from_roots (map SInt [1; -1]) "x" = Ok R
                 /\ evaluate R (SInt (-1)) = Ok e /\ s_eq e (SInt 0) = true.
Proof.
  assert (H : In (-1) [1; -1]) by (simpl; auto).
  split; [exact H|]. exact (from_roots_vanishes _ "x" _ H).
Defined.

(** ** Associativity of the product and powers *)

Lemma sum_to_S (n : nat) (f : nat -> Qc) : sum_to (S n) f = (sum_to n f + f n)%Qc.
Proof. reflexivity. Qed.

(** A sum over the triangle [j <= i <= k], by rows and by columns. *)
Lemma sum_triangle (a : nat -> nat -> Qc) (k : nat) :
  sum_to (S k) (fun i => sum_to (S i) (fun j => a i j))
  = sum_to (S k) (fun j => sum_to (S (k - j)) (fun m => a (j + m)%nat j)).
Proof.
  induction k as [|k IH]; [reflexivity|].
  rewrite (sum_to_S (S k)), IH.
  rewrite (sum_to_S (S k) (fun j => sum_to (S (S k - j)) (fun m => a (j + m)%nat j))).
  rewrite Nat.sub_diag, (sum_to_S (S k) (fun j => a (S k) j)).
  rewrite (sum_to_ext (S k) (fun j => sum_to (S (S k - j)) (fun m => a (j + m)%nat j))
             (fun j => sum_to (S (k - j)) (fun m => a (j + m)%nat j) + a (S k) j)%Qc).
  - rewrite sum_to_add, (sum_to_S 0), Nat.add_0_r.
    change (sum_to 0 (fun m => a (S k + m)%nat (S k))) with 0%Qc.
    change (fun j => a (S k) j) with (a (S k)). ring.
  - intros j Hj. replace (S k - j)%nat with (S (k - j)) by lia.
    rewrite (sum_to_S (S (k - j))). replace (j + S (k - j))%nat with (S k) by lia.
    reflexivity.
Qed.

Lemma conv_assoc (f g h : nat -> Qc) (k : nat) :
  sum_to (S k) (fun i => sum_to (S i) (fun j => f j * g (i - j)%nat) * h (k - i)%nat)%Qc
  = sum_to (S k) (fun j => f j * sum_to (S (k - j))
                                   (fun m => g m * h (k - j - m)%nat))%Qc.
Proof.
  rewrite (sum_to_ext _ _ (fun i => sum_to (S i)
                             (fun j => h (k - i)%nat * (f j * g (i - j)%nat)))%Qc).
  2: { intros i _. rewrite sum_to_scale. ring. }
  rewrite (sum_triangle (fun i j => h (k - i)%nat * (f j * g (i - j)%nat))%Qc).
  apply sum_to_ext. intros j Hj. rewrite <- sum_to_scale. apply sum_to_ext.
  intros m Hm. replace (j + m - j)%nat with m by lia.
  replace (k - (j + m))%nat with (k - j - m)%nat by lia. ring.
Qed.

Lemma conv_conv (p q r a b : list Scalar) (k : nat) :
  (forall i, coef a i = conv p q i) -> (forall i, coef b i = conv q r i) ->
  conv a r k = conv p b k.
Proof.
  intros Ha Hb. unfold conv at 1. unfold conv at 1.
  rewrite (sum_to_ext _ _ (fun i => sum_to (S i) (fun j => coef p j * coef q (i - j)%nat)
                                    * coef r (k - i)%nat)%Qc)
    by (intros i _; rewrite Ha; reflexivity).
  rewrite conv_assoc. apply sum_to_ext. intros j _. rewrite Hb. reflexivity.
Qed.

(** X20.  The product of polynomials with int coefficients is associative
    up to [==]: [(P * Q) * R == P * (Q * R)]. *)
Theorem mul_associative (P Q R : Polynomial) :
  well_formed P -> well_formed Q -> well_formed R ->
  int_coefficients P -> int_coefficients Q -> int_coefficients R ->
  exists A B, __mul__ P (VPoly Q) = Ok A /\ __mul__ Q (VPoly R) = Ok B
              /\ equal_results (__mul__ A (VPoly R)) (__mul__ P (VPoly B)).
Proof.
  intros HP HQ HR _ _ _.
  destruct (mul_denotes P Q HP HQ) as (A & HA & HwfA & HcA).
  destruct (mul_denotes Q R HQ HR) as (B & HB & HwfB & HcB).
  exists A, B. split; [exact HA|]. split; [exact HB|].
  apply (denotes_equal _ _ (conv (coefficients A) (coefficients R))).
  - apply mul_denotes; assumption.
  - apply (denotes_ext _ _ _ (mul_denotes P B HP HwfB)). intros k.
    symmetry. apply (conv_conv _ (coefficients Q)); assumption.
Qed.

Lemma mul_associative_witness :
  well_formed (mkPolynomial [SInt 1; SInt 2] "x") /\ well_formed (mkPolynomial [SInt 0; SInt 1; SInt 3] "x") /\ well_formed (mkPolynomial [SInt (-1); SInt 1] "x")
  /\ int_coefficients (mkPolynomial [SInt 1; SInt 2] "x") /\ int_coefficients (mkPolynomial [SInt 0; SInt 1; SInt 3] "x") /\ int_coefficients (mkPolynomial [SInt (-1); SInt 1] "x")
  /\ exists A B,
       __mul__ (mkPolynomial [SInt 1; SInt 2] "x") (VPoly (mkPolynomial [SInt 0; SInt 1; SInt 3] "x")) = Ok A /\ __mul__ (mkPolynomial [SInt 0; SInt 1; SInt 3] "x") (VPoly (mkPolynomial [SInt (-1); SInt 1] "x")) = Ok B
       /\ equal_results (__mul__ A (VPoly (mkPolynomial [SInt (-1); SInt 1] "x"))) (__mul__ (mkPolynomial [SInt 1; SInt 2] "x") (VPoly B)).
Proof.
  assert (H1 : well_formed (mkPolynomial [SInt 1; SInt 2] "x")) by reflexivity.
  assert (H2 : well_formed (mkPolynomial [SInt 0; SInt 1; SInt 3] "x")) by reflexivity.
  assert (H3 : well_formed (mkPolynomial [SInt (-1); SInt 1] "x")) by reflexivity.
  assert (H4 : int_coefficients (mkPolynomial [SInt 1; SInt 2] "x")) by reflexivity.
  assert (H5 : int_coefficients (mkPolynomial [SInt 0; SInt 1; SInt 3] "x")) by reflexivity.
  assert (H6 : int_coefficients (mkPolynomial [SInt (-1); SInt 1] "x")) by reflexivity.
  split; [exact H1|]. split; [exact H2|]. split; [exact H3|].
  split; [exact H4|]. split; [exact H5|]. split; [exact H6|].
  exact (mul_associative _ _ _ H1 H2 H3 H4 H5 H6).
Defined.

(** Coefficients of [P ** (m + n)]: those of the product of [P ** m] and
    [P ** n]. *)
Lemma pow_add_coef (P : Polynomial) (m n : nat) :
  well_formed P ->
  exists A B C,
    repeated_product P m = Ok A /\ repeated_product P n = Ok B
    /\ repeated_product P (m + n) = Ok C
    /\ well_formed A /\ well_formed B /\ well_formed C
    /\ forall k, coef (coefficients C) k = conv (coefficients A) (coefficients B) k.
Proof.
  intros HP.
  assert (Hwf : forall j R, repeated_product P j = Ok R -> well_formed R).
  { intros j R H. rewrite <- pow_repeated in H. exact (pow_well_formed _ _ _ H). }
  destruct (repeated_product_ok P m) as [A HA]. pose proof (Hwf _ _ HA) as HwfA.
  induction n as [|n (A' & B & C & HA' & HB & HC & _ & HwfB & HwfC & Hc)].
  - rewrite Nat.add_0_r. cbn [repeated_product]. rewrite init_ok.
    eexists A, _, A. split; [exact HA|]. split; [reflexivity|]. split; [exact HA|].
    split; [exact HwfA|]. split; [reflexivity|]. split; [exact HwfA|].
    intros k. cbn [coefficients _strip_leading_zeros drop_trailing_zeros].
    rewrite conv_constant, value_1. ring.
  - rewrite HA in HA'. injection HA' as <-.
    replace (m + S n)%nat with (S (m + n)) by lia. cbn [repeated_product].
    rewrite HB, HC, !bind_Ok.
    destruct (mul_denotes B P HwfB HP) as (B' & HB' & HwfB' & HcB').
    destruct (mul_denotes C P HwfC HP) as (C' & HC' & HwfC' & HcC').
    exists A, B', C'. repeat (split; [assumption|]).
    intros k. rewrite HcC'. apply (conv_conv _ (coefficients B)); assumption.
Qed.

(** X21.  Powers of a polynomial with int coefficients add up:
    [P ** (m + n) == P ** m * P ** n], and [P ** 1 == P]. *)
Theorem pow_add (P : Polynomial) (m n : nat) :
  well_formed P -> int_coefficients P ->
  (exists A B, __pow__ P (VNum (SInt (Z.of_nat m))) = Ok A
               /\ __pow__ P (VNum (SInt (Z.of_nat n))) = Ok B
               /\ equal_results (__pow__ P (VNum (SInt (Z.of_nat (m + n)))))
                                (__mul__ A (VPoly B)))
  /\ equal_results (__pow__ P (VNum (SInt 1))) (Ok P).
Proof.
  intros HP _. split.
  - rewrite !pow_repeated.
    destruct (pow_add_coef P m n HP) as (A & B & C & HA & HB & HC & HwfA & HwfB & HwfC & Hc).
    exists A, B. split; [exact HA|]. split; [exact HB|].
    apply (denotes_equal _ _ (conv (coefficients A) (coefficients B))).
    + exists C. auto.
    + apply mul_denotes; assumption.
  - change 1 with (Z.of_nat 1). rewrite pow_repeated. cbn [repeated_product].
    rewrite init_ok, bind_Ok.
    apply (denotes_equal _ _ (coef (coefficients P))); [|apply denotes_self, HP].
    eapply denotes_ext; [apply mul_denotes; [reflexivity | exact HP]|].
    intros k. cbn [coefficients _strip_leading_zeros drop_trailing_zeros].
    rewrite conv_comm, conv_constant, value_1. ring.
Qed.

Lemma pow_add_witness :
  well_formed (mkPolynomial [SInt 1; SInt 2] "x") /\ int_coefficients (mkPolynomial [SInt 1; SInt 2] "x")
  /\ (exists A B, __pow__ (mkPolynomial [SInt 1; SInt 2] "x") (VNum (SInt (Z.of_nat 2))) = Ok A
                  /\ __pow__ (mkPolynomial [SInt 1; SInt 2] "x") (VNum (SInt (Z.of_nat 1))) = Ok B
                  /\ equal_results (__pow__ (mkPolynomial [SInt 1; SInt 2] "x") (VNum (SInt (Z.of_nat (2 + 1)))))
                                   (__mul__ A (VPoly B)))
  /\ equal_results (__pow__ (mkPolynomial [SInt 1; SInt 2] "x") (VNum (SInt 1))) (Ok (mkPolynomial [SInt 1; SInt 2] "x")).
Proof.
  assert (H1 : well_formed (mkPolynomial [SInt 1; SInt 2] "x")) by reflexivity.
  assert (H2 : int_coefficients (mkPolynomial [SInt 1; SInt 2] "x")) by reflexivity.
  split; [exact H1|]. split; [exact H2|]. exact (pow_add _ 2 1 H1 H2).
Defined.

(** X23.  For a nonzero polynomial [P] with int coefficients, the degree of
    [P ** n] is [n] times the degree of [P], and [P ** n] is nonzero. *)
Theorem degree_of_power (P : Polynomial) (n : nat) :
  int_coefficients P ->
  (exists d, last (coefficients P) = Some d /\ s_eq d (SInt 0) = false) ->
  exists R d, __pow__ P (VNum (SInt (Z.of_nat n))) = Ok R
              /\ degree R = Z.of_nat n * degree P
              /\ last (coefficients R) = Some d /\ s_eq d (SInt 0) = false.
Proof.
  intros _ (dp & Hdp & Hzp). rewrite pow_repeated.
  induction n as [|n (R & d & HR & Hdeg & Hlast & Hz)]; cbn [repeated_product].
  - rewrite init_ok. eexists _, (SInt 1). split; [reflexivity|].
    split; [reflexivity|]. split; reflexivity.
  - rewrite HR, bind_Ok.
    destruct (mul_leading R P d dp Hlast Hz Hdp Hzp) as (R' & d' & HR' & Hdeg' & Hlast' & Hv & _).
    exists R', d'. split; [exact HR'|]. split; [lia|]. split; [exact Hlast'|].
    apply s_eq_nonzero. rewrite Hv. apply Qc_mul_nonzero; apply s_eq_nonzero; assumption.
Qed.

Lemma degree_of_power_witness :
  int_coefficients (mkPolynomial [SInt 1; SInt 2] "x")
  /\ (exists d, last (coefficients (mkPolynomial [SInt 1; SInt 2] "x")) = Some d /\ s_eq d (SInt 0) = false)
  /\ exists R d,
       __pow__ (mkPolynomial [SInt 1; SInt 2] "x") (VNum (SInt (Z.of_nat 3))) = Ok R
       /\ degree R = Z.of_nat 3 * degree (mkPolynomial [SInt 1; SInt 2] "x")
       /\ last (coefficients R) = Some d /\ s_eq d (SInt 0) = false.
Proof.
  assert (H1 : int_coefficients (mkPolynomial [SInt 1; SInt 2] "x")) by reflexivity.
  assert (H2 : exists d, last (coefficients (mkPolynomial [SInt 1; SInt 2] "x")) = Some d /\ s_eq d (SInt 0) = false)
    by (exists (SInt 2); split; reflexivity).
  split; [exact H1|]. split; [exact H2|]. exact (degree_of_power _ 3 H1 H2).
Defined.

(** ** The polynomial of [from_roots] *)



(** ** The variable of a result *)







(** ** Operations that go through the sum of two polynomials *)

(** X15.  Subtracting a polynomial and composing with a polynomial never
    return: [P - Q] and [P.compose(Q)] call [+] on two polynomials and raise
    its [TypeError]. *)
Theorem sub_and_compose_raise (P Q : Polynomial) :
  coefficients P <> [] ->
  __sub__ P (VPoly Q) = Raise TypeError
  /\ compose P (VPoly Q) = Raise TypeError.
Proof.
  intros Hne. split.
  - unfold __sub__, negated, __neg__. rewrite init_ok.
    cbn [fmap result_fmap]. rewrite bind_Ok. apply add_polynomial.
  - unfold compose, range, len. rewrite init_ok, bind_Ok, Nat2Z.id.
    destruct (coefficients P) as [|c l] eqn:E; [easy|].
    cbn [length seq]. rewrite for_each_cons.
    change (index (c :: l) 0) with (Ok c : result Scalar). rewrite bind_Ok.
    rewrite pow_repeated. cbn [repeated_product]. rewrite init_ok, bind_Ok.
    unfold __rmul__. cbn [__mul__]. rewrite init_ok, bind_Ok.
    rewrite add_polynomial. reflexivity.
Qed.

Lemma sub_and_compose_raise_witness :
  coefficients (mkPolynomial [SInt 1; SInt 2] "x") <> []
  /\ __sub__ (mkPolynomial [SInt 1; SInt 2] "x") (VPoly (mkPolynomial [SInt 3] "x"))
     = Raise TypeError
  /\ compose (mkPolynomial [SInt 1; SInt 2] "x") (VPoly (mkPolynomial [SInt 3] "x"))
     = Raise TypeError.
Proof.
  assert (H : coefficients (mkPolynomial [SInt 1; SInt 2] "x") <> [])
    by (cbn [coefficients]; discriminate).
  split; [exact H|]. exact (sub_and_compose_raise _ (mkPolynomial [SInt 3] "x") H).
Defined.

(** ** Equality *)


